(** * Take-off calculator: measurement capture, calibration and undo/redo

    A shallow embedding of the PDF viewer page of the invoice manager
    (the [PDFViewer] component): its React state, its event handlers and
    the label it renders for a measurement.

    JavaScript numbers are IEEE 754 binary64 values, which is what Rocq's
    primitive [float] is, so coordinates, distances and factors are
    [float]s and every arithmetic step of the source is the corresponding
    primitive operation.  Page numbers and ids are integral numbers and
    are kept in [Z]. *)

From Stdlib Require Import ZArith List String Ascii Bool Lia Floats.
From Stdlib Require Import DecimalString.
Import ListNotations.

Set Warnings "-inexact-float".

Local Open Scope Z_scope.

(** ** Data model *)

Module Point.
Record t : Type := mk { x : float; y : float; page : Z }.
End Point.

Module Measurement.
Record t : Type := mk { id : Z; points : Point.t * Point.t; pixelDistance : float }.
End Measurement.

(** [type PDFFile = string | File | null]: a path, or an uploaded file
    (kept by its name); [null] is [None] of [option PDFFile]. *)
Inductive PDFFile : Type :=
| Path (url : string)
| File (name : string).

(** The part of a mouse event the handlers read: the pointer position
    and the origin of [e.currentTarget.getBoundingClientRect()]. *)
Record MouseEvent : Type := mkMouseEvent {
  clientX : float;
  clientY : float;
  rectLeft : float;
  rectTop : float
}.

(** ** Calibration registry *)

Definition drawingCalibrations : list (string * float) :=
  [ ("125"%string, 0.1661%float);
    ("100"%string, 0.125%float);
    ("75"%string, 0.0933%float) ].

Definition defaultCalibrationValue : string := "125".

(** Property lookup [table[key]] on a plain object: the value of the
    first entry with that key, [undefined] (here [None]) otherwise. *)
Fixpoint lookup (table : list (string * float)) (key : string) : option float :=
  match table with
  | [] => None
  | (k, v) :: rest => if String.eqb k key then Some v else lookup rest key
  end.

(** ** Component state *)

Record State : Type := mkState {
  file : option PDFFile;
  numPages : option Z;
  scale : float;
  scaleFactor : option float;
  measurements : list Measurement.t;
  history : list (list Measurement.t);
  redoStack : list (list Measurement.t);
  hoveredId : option Z;
  isDragging : bool;
  dragStart : option Point.t;
  dragEnd : option Point.t;
  dragPage : option Z
}.

(** The state of the first render: the arguments of the [useState] calls. *)
Definition init : State := {|
  file := Some (Path "/Level1 Floor Plan - Hydronic.pdf");
  numPages := None;
  scale := 1.25%float;
  scaleFactor := lookup drawingCalibrations defaultCalibrationValue;
  measurements := [];
  history := [];
  redoStack := [];
  hoveredId := None;
  isDragging := false;
  dragStart := None;
  dragEnd := None;
  dragPage := None
|}.

(** *** State setters

    A handler runs against the state of the render that created it and
    queues its updates; the next render sees them applied in order.  A
    setter called with a value replaces the field, a setter called with
    a function ([setHistory((prev) => ...)]) maps the pending value. *)

Definition setFile (v : option PDFFile) (s : State) : State :=
  mkState v (numPages s) (scale s) (scaleFactor s) (measurements s) (history s)
    (redoStack s) (hoveredId s) (isDragging s) (dragStart s) (dragEnd s) (dragPage s).

Definition setNumPages (v : option Z) (s : State) : State :=
  mkState (file s) v (scale s) (scaleFactor s) (measurements s) (history s)
    (redoStack s) (hoveredId s) (isDragging s) (dragStart s) (dragEnd s) (dragPage s).

Definition setScale (v : float) (s : State) : State :=
  mkState (file s) (numPages s) v (scaleFactor s) (measurements s) (history s)
    (redoStack s) (hoveredId s) (isDragging s) (dragStart s) (dragEnd s) (dragPage s).

Definition setScaleFactor (v : option float) (s : State) : State :=
  mkState (file s) (numPages s) (scale s) v (measurements s) (history s)
    (redoStack s) (hoveredId s) (isDragging s) (dragStart s) (dragEnd s) (dragPage s).

Definition setMeasurements (v : list Measurement.t) (s : State) : State :=
  mkState (file s) (numPages s) (scale s) (scaleFactor s) v (history s)
    (redoStack s) (hoveredId s) (isDragging s) (dragStart s) (dragEnd s) (dragPage s).

Definition setHistoryWith (f : list (list Measurement.t) -> list (list Measurement.t))
    (s : State) : State :=
  mkState (file s) (numPages s) (scale s) (scaleFactor s) (measurements s) (f (history s))
    (redoStack s) (hoveredId s) (isDragging s) (dragStart s) (dragEnd s) (dragPage s).

Definition setHistory (v : list (list Measurement.t)) : State -> State :=
  setHistoryWith (fun _ => v).

Definition setRedoStackWith (f : list (list Measurement.t) -> list (list Measurement.t))
    (s : State) : State :=
  mkState (file s) (numPages s) (scale s) (scaleFactor s) (measurements s) (history s)
    (f (redoStack s)) (hoveredId s) (isDragging s) (dragStart s) (dragEnd s) (dragPage s).

Definition setRedoStack (v : list (list Measurement.t)) : State -> State :=
  setRedoStackWith (fun _ => v).

Definition setHoveredId (v : option Z) (s : State) : State :=
  mkState (file s) (numPages s) (scale s) (scaleFactor s) (measurements s) (history s)
    (redoStack s) v (isDragging s) (dragStart s) (dragEnd s) (dragPage s).

Definition setIsDragging (v : bool) (s : State) : State :=
  mkState (file s) (numPages s) (scale s) (scaleFactor s) (measurements s) (history s)
    (redoStack s) (hoveredId s) v (dragStart s) (dragEnd s) (dragPage s).

Definition setDragStart (v : option Point.t) (s : State) : State :=
  mkState (file s) (numPages s) (scale s) (scaleFactor s) (measurements s) (history s)
    (redoStack s) (hoveredId s) (isDragging s) v (dragEnd s) (dragPage s).

Definition setDragEnd (v : option Point.t) (s : State) : State :=
  mkState (file s) (numPages s) (scale s) (scaleFactor s) (measurements s) (history s)
    (redoStack s) (hoveredId s) (isDragging s) (dragStart s) v (dragPage s).

Definition setDragPage (v : option Z) (s : State) : State :=
  mkState (file s) (numPages s) (scale s) (scaleFactor s) (measurements s) (history s)
    (redoStack s) (hoveredId s) (isDragging s) (dragStart s) (dragEnd s) v.

(** [s |> f |> g]: the updates of a handler, in the order it queues them. *)
Notation "s |> f" := (f s) (at level 45, left associativity, only parsing).

(** ** Event handlers *)

Definition onFileChange (nextFile : option PDFFile) (s : State) : State :=
  s |> setFile nextFile
    |> setNumPages None
    |> setMeasurements []
    |> setScaleFactor None
    |> setHistory []
    |> setRedoStack [].

Definition onDocumentLoadSuccess (nextNumPages : Z) (s : State) : State :=
  s |> setNumPages (Some nextNumPages).

(** The page-local coordinate of a pointer position: the offset from the
    page's bounding box divided by the zoom level.  Division of numbers
    never throws; a zero divisor gives an infinity or NaN. *)
Definition normalize (e : MouseEvent) (zoom : float) (pageNumber : Z) : Point.t :=
  Point.mk ((clientX e - rectLeft e) / zoom)%float
           ((clientY e - rectTop e) / zoom)%float
           pageNumber.

Definition handleMouseDown (e : MouseEvent) (pageNumber : Z) (s : State) : State :=
  s |> setDragStart (Some (normalize e (scale s) pageNumber))
    |> setDragEnd None
    |> setDragPage (Some pageNumber)
    |> setIsDragging true.

Definition handleMouseMove (e : MouseEvent) (s : State) : State :=
  match isDragging s, dragStart s, dragPage s with
  | true, Some _, Some pg => s |> setDragEnd (Some (normalize e (scale s) pg))
  | _, _, _ => s
  end.

(** [x ** 2]: the engines' [pow] returns [x * x] for the exponent 2. *)
Definition sq (v : float) : float := (v * v)%float.

Definition euclidean (p1 p2 : Point.t) : float :=
  let dx := (Point.x p2 - Point.x p1)%float in
  let dy := (Point.y p2 - Point.y p1)%float in
  PrimFloat.sqrt (sq dx + sq dy)%float.

(** [now] is the value [Date.now()] returns at the call. *)
Definition handleMouseUp (now : Z) (s : State) : State :=
  match isDragging s, dragStart s, dragEnd s with
  | true, Some p1, Some p2 =>
      let pixelDistance := euclidean p1 p2 in
      let newMeasurement := Measurement.mk now (p1, p2) pixelDistance in
      let updatedMeasurements := measurements s ++ [newMeasurement] in
      s |> setMeasurements updatedMeasurements
        |> setHistoryWith (fun prev => prev ++ [measurements s])
        |> setRedoStack []
        |> setDragStart None
        |> setDragEnd None
        |> setDragPage None
        |> setIsDragging false
  | _, _, _ => s |> setIsDragging false
  end.

Definition handleUndo (s : State) : State :=
  if (List.length (history s) =? 0)%nat then s
  else
    match nth_error (history s) (List.length (history s) - 1) with
    | None => s (* not taken: the index is in range *)
    | Some prev =>
        s |> setRedoStackWith (fun r => measurements s :: r)
          |> setMeasurements prev
          |> setHistoryWith (fun h => firstn (List.length h - 1) h)
    end.

Definition handleRedo (s : State) : State :=
  if (List.length (redoStack s) =? 0)%nat then s
  else
    match nth_error (redoStack s) 0 with
    | None => s (* not taken: the stack is not empty *)
    | Some next =>
        s |> setMeasurements next
          |> setHistoryWith (fun h => h ++ [measurements s])
          |> setRedoStackWith (fun r => skipn 1 r)
    end.

(** ** Events and the transition function

    The pointer, undo/redo and file handlers are the page's own.  The
    zoom menu, the calibration selector and the overlay's hover
    callbacks receive the setters [setScale], [setScaleFactor] and
    [setHoveredId] as props and may call them with any value of the
    setter's type. *)

Inductive Event : Type :=
| FileChange (nextFile : option PDFFile)
| DocumentLoadSuccess (nextNumPages : Z)
| MouseDown (e : MouseEvent) (pageNumber : Z)
| MouseMove (e : MouseEvent)
| MouseUp (now : Z)
| Undo
| Redo
| SetScale (zoom : float)
| SetScaleFactor (factor : option float)
| SetHoveredId (hovered : option Z).

Definition step (s : State) (ev : Event) : State :=
  match ev with
  | FileChange nextFile => onFileChange nextFile s
  | DocumentLoadSuccess n => onDocumentLoadSuccess n s
  | MouseDown e pageNumber => handleMouseDown e pageNumber s
  | MouseMove e => handleMouseMove e s
  | MouseUp now => handleMouseUp now s
  | Undo => handleUndo s
  | Redo => handleRedo s
  | SetScale zoom => setScale zoom s
  | SetScaleFactor factor => setScaleFactor factor s
  | SetHoveredId hovered => setHoveredId hovered s
  end.

Definition run (s : State) (trace : list Event) : State :=
  fold_left step trace s.

Inductive reachable : State -> Prop :=
| reachable_init : reachable init
| reachable_step s ev : reachable s -> reachable (step s ev).

(** ** Number formatting

    [Number.prototype.toFixed] on the exact value of a binary64 number.
    [Prim2SF] gives a finite number as sign, mantissa [m] and exponent
    [e], with value [m * 2^e]. *)

Definition digits (n : Z) : list ascii :=
  list_ascii_of_string (NilZero.string_of_uint (N.to_uint (Z.to_N n))).

(** The integer [n] for which [n / 10^f - m * 2^e] is as close to zero
    as possible, the larger one if there are two. *)
Definition nearest_scaled (m : positive) (e : Z) (f : nat) : Z :=
  if 0 <=? e then Z.pos m * 2 ^ e * 10 ^ Z.of_nat f
  else (2 * Z.pos m * 10 ^ Z.of_nat f + 2 ^ (- e)) / 2 ^ (1 - e).

(** [m * 2^e >= 10^21]. *)
Definition at_least_1e21 (m : positive) (e : Z) : bool :=
  if 0 <=? e then 10 ^ 21 <=? Z.pos m * 2 ^ e
  else 10 ^ 21 * 2 ^ (- e) <=? Z.pos m.

(** The digits of [n] with a decimal point before the last [f] of them,
    padded with zeros on the left up to [f + 1] digits. *)
Definition fixed_notation (n : Z) (f : nat) : list ascii :=
  let m := digits n in
  if (f =? 0)%nat then m
  else
    let k := List.length m in
    let m := if (k <=? f)%nat then repeat "0"%char (f + 1 - k) ++ m else m in
    let k := List.length m in
    firstn (k - f) m ++ "."%char :: skipn (k - f) m.

(** *** [Number::toString] of an integer of at least [10^21]

    The value is [m * 2^e] with [e] positive.  A decimal [v] reads back
    as this number when it lies within half a gap of it (a tie goes to
    the even mantissa); the gap below a power of two is half the gap
    above. *)
Definition reads_back (m : positive) (e : Z) (v : Z) : bool :=
  let value := Z.pos m * 2 ^ e in
  let above := 2 ^ (e - 1) in
  let below := if Z.pos m =? 2 ^ 52 then 2 ^ (e - 2) else 2 ^ (e - 1) in
  if Z.even (Z.pos m)
  then (value - below <=? v) && (v <=? value + above)
  else (value - below <? v) && (v <? value + above).

(** The [k]-digit decimals next to the value: [s * 10^(d-k)] for
    [s = value / 10^(d-k)] and its successor, [d] the number of digits
    of the value.  Of those that read back, the closest is chosen, the
    even [s] on a tie. *)
Definition shortest_at (m : positive) (e : Z) (k : nat) : option Z :=
  let value := Z.pos m * 2 ^ e in
  let d := List.length (digits value) in
  let unit := 10 ^ Z.of_nat (d - k) in
  let lo := value / unit in
  let hi := lo + 1 in
  let lo_ok := reads_back m e (lo * unit) in
  let hi_ok := reads_back m e (hi * unit) in
  match lo_ok, hi_ok with
  | false, false => None
  | true, false => Some (lo * unit)
  | false, true => Some (hi * unit)
  | true, true =>
      let dl := value - lo * unit in
      let dh := hi * unit - value in
      if dl <? dh then Some (lo * unit)
      else if dh <? dl then Some (hi * unit)
      else if Z.even lo then Some (lo * unit) else Some (hi * unit)
  end.

(** The decimal with the fewest significant digits that reads back,
    trying [k], [k + 1], ... digits; seventeen always suffice. *)
Fixpoint shortest_from (m : positive) (e : Z) (k tries : nat) : Z :=
  match tries with
  | O => Z.pos m * 2 ^ e
  | S tries' =>
      match shortest_at m e k with
      | Some v => v
      | None => shortest_from m e (S k) tries'
      end
  end.

Fixpoint strip_zeros (rev_digits : list ascii) : list ascii :=
  match rev_digits with
  | "0"%char :: rest => strip_zeros rest
  | _ => rev_digits
  end.

(** Exponential notation [d.ddde+x] of the shortest decimal (a single
    digit has no point). *)
Definition exponential_notation (m : positive) (e : Z) : list ascii :=
  let v := shortest_from m e 1 17 in
  let all := digits v in
  let n := List.length all in
  let significant := rev (strip_zeros (rev all)) in
  let exponent := digits (Z.of_nat (n - 1)) in
  match significant with
  | [] => all
  | [d1] => d1 :: "e"%char :: "+"%char :: exponent
  | d1 :: more => d1 :: "."%char :: more ++ "e"%char :: "+"%char :: exponent
  end.

(** [x.toFixed(f)], for [0 <= f <= 100]. *)
Definition toFixed (x : float) (f : nat) : string :=
  match Prim2SF x with
  | S754_nan => "NaN"
  | S754_infinity false => "Infinity"
  | S754_infinity true => "-Infinity"
  | S754_zero _ => string_of_list_ascii (fixed_notation 0 f)
  | S754_finite negative m e =>
      let sign := if negative then "-"%string else ""%string in
      if at_least_1e21 m e
      then sign ++ string_of_list_ascii (exponential_notation m e)
      else sign ++ string_of_list_ascii (fixed_notation (nearest_scaled m e f) f)
  end.

(** ** The label of a measurement *)

(** A number is falsy when it is [0], [-0] or [NaN]. *)
Definition truthy (v : float) : bool :=
  negb (PrimFloat.eqb v 0 || PrimFloat.is_nan v).

(** [scaleFactor || 1]. *)
Definition factorOr1 (factor : option float) : float :=
  match factor with
  | Some k => if truthy k then k else 1%float
  | None => 1%float
  end.

Definition displayDistance (m : Measurement.t) (factor : option float) : float :=
  (Measurement.pixelDistance m * factorOr1 factor)%float.

Definition label (m : Measurement.t) (factor : option float) : string :=
  toFixed (displayDistance m factor) 2 ++ " m".

(** *** The shape of a formatted number *)

Definition is_digit (c : ascii) : bool :=
  (48 <=? nat_of_ascii c)%nat && (nat_of_ascii c <=? 57)%nat.

(** At least one digit, a decimal point, and exactly [f] digits. *)
Definition fixed_form (f : nat) (cs : list ascii) : bool :=
  let k := List.length cs in
  (f + 2 <=? k)%nat &&
  forallb is_digit (firstn (k - f - 1) cs) &&
  match skipn (k - f - 1) cs with
  | c :: fraction => Ascii.eqb c "." && forallb is_digit fraction
  | [] => false
  end.

Definition without_sign (cs : list ascii) : list ascii :=
  match cs with
  | c :: rest => if Ascii.eqb c "-" then rest else cs
  | [] => []
  end.

(** A number written with exactly two decimal places: an optional
    minus sign, digits, a point, two digits. *)
Definition two_decimals (str : string) : bool :=
  fixed_form 2 (without_sign (list_ascii_of_string str)).

(** A number that is finite and below [10^21] in magnitude. *)
Definition fixed_range (x : float) : bool :=
  match Prim2SF x with
  | S754_zero _ => true
  | S754_finite _ m e => negb (at_least_1e21 m e)
  | _ => false
  end.

(** [m * 2^52], the mantissa of a product with [1 = 2^52 * 2^-52]. *)
Definition shl52 (m : positive) : positive :=
  Pos.iter xO m 52.

(** ** Clock readings and ids *)

(** The clock readings a trace passes to the release handler. *)
Definition release_times (trace : list Event) : list Z :=
  flat_map (fun ev => match ev with MouseUp now => [now] | _ => [] end) trace.

(** A snapshot whose ids are pairwise distinct and drawn from [used]. *)
Definition ids_fresh (used : list Z) (snapshot : list Measurement.t) : Prop :=
  NoDup (map Measurement.id snapshot) /\
  incl (map Measurement.id snapshot) used.

Definition ids_fresh_everywhere (used : list Z) (s : State) : Prop :=
  ids_fresh used (measurements s) /\
  Forall (ids_fresh used) (history s) /\
  Forall (ids_fresh used) (redoStack s).

(** ** Gestures

    A drag as the page receives it: a press, one move and the release,
    with the pointer position given relative to the page's box. *)

Definition pointer (px py : float) : MouseEvent :=
  mkMouseEvent px py 0 0.

Definition drag (x1 y1 x2 y2 : float) (pageNumber now : Z) : list Event :=
  [ MouseDown (pointer x1 y1) pageNumber;
    MouseMove (pointer x2 y2);
    MouseUp now ].

(** ** State predicates *)

(** Both points of a measurement lie on one page. *)
Definition same_page (m : Measurement.t) : Prop :=
  Point.page (fst (Measurement.points m)) = Point.page (snd (Measurement.points m)).

(** The drag session is coherent: a recorded end point belongs to an
    active drag and carries the page of the start point, and the drag
    page is the page of the start point. *)
Definition drag_coherent (s : State) : Prop :=
  (forall q, dragEnd s = Some q ->
     isDragging s = true /\
     exists p, dragStart s = Some p /\ Point.page q = Point.page p) /\
  (forall p, dragStart s = Some p -> dragPage s = Some (Point.page p)).

(** Every measurement of the store and of every snapshot is on one page. *)
Definition store_on_one_page (s : State) : Prop :=
  Forall same_page (measurements s) /\
  Forall (Forall same_page) (history s) /\
  Forall (Forall same_page) (redoStack s).

(** A calibration factor that is absent or a value of the registry. *)
Definition from_registry (factor : option float) : Prop :=
  match factor with
  | None => True
  | Some k => exists scaleId, lookup drawingCalibrations scaleId = Some k
  end.

(** An event by which the calibration selector, if it is the one
    calling, passes on a registry value or clears the factor. *)
Definition registry_selection (ev : Event) : Prop :=
  match ev with
  | SetScaleFactor factor => from_registry factor
  | _ => True
  end.

(** ** The snapshots as one sequence *)

(** The undo stack, the current sequence and the redo stack, oldest
    first: every snapshot the history manager holds. *)
Definition timeline (s : State) : list (list Measurement.t) :=
  history s ++ measurements s :: redoStack s.

(** The prefixes of a sequence that are shorter than it, shortest first. *)
Definition proper_prefixes (l : list Measurement.t) : list (list Measurement.t) :=
  map (fun i => firstn i l) (seq 0 (List.length l)).

(** Each entry is the one before it with one measurement appended,
    starting from [current]. *)
Fixpoint grows_from (current : list Measurement.t)
    (later : list (list Measurement.t)) : Prop :=
  match later with
  | [] => True
  | next :: rest => (exists m, next = current ++ [m]) /\ grows_from next rest
  end.

(** The stacks describe one linear log with a cursor: the undo stack
    holds the shorter prefixes of the store and the redo stack its
    successive one-measurement extensions. *)
Definition linear_log (s : State) : Prop :=
  history s = proper_prefixes (measurements s) /\
  grows_from (measurements s) (redoStack s).

(** ** Classes of binary64 numbers *)

(** [Number.isFinite]: neither NaN nor an infinity. *)
Definition isFinite (v : float) : bool :=
  match Prim2SF v with
  | S754_zero _ | S754_finite _ _ _ => true
  | _ => false
  end.

(** The sign bit of a number, when it has one (NaN has none). *)
Definition sign_is (s : bool) (x : spec_float) : Prop :=
  match x with
  | S754_zero s' | S754_infinity s' | S754_finite s' _ _ => s' = s
  | S754_nan => True
  end.

(** A number other than NaN whose sign bit is clear: [+0], a positive
    number or [+Infinity]. *)
Definition is_nonneg_number (x : spec_float) : Prop :=
  match x with
  | S754_zero s | S754_infinity s | S754_finite s _ _ => s = false
  | S754_nan => False
  end.

Definition not_nan (x : spec_float) : Prop :=
  match x with S754_nan => False | _ => True end.

Definition finite_sf (x : spec_float) : Prop :=
  match x with S754_zero _ | S754_finite _ _ _ => True | _ => False end.

(** ** Properties of every stored measurement *)

(** [P] holds of every measurement of the store and of every snapshot
    on the two stacks. *)
Definition in_every_snapshot (P : Measurement.t -> Prop) (s : State) : Prop :=
  Forall P (measurements s) /\
  Forall (Forall P) (history s) /\
  Forall (Forall P) (redoStack s).

(** ** The overlay of a page

    [renderOverlay] as the elements it returns, with the attributes that
    depend on the state: one group per measurement of the page (its key,
    its line, and the label box when the measurement is hovered) and the
    preview line of a drag in progress.  Fixed styling attributes are
    left out. *)

Module Line.
Record t : Type := mk { x1 : float; y1 : float; x2 : float; y2 : float }.
End Line.

Module HoverLabel.
Record t : Type := mk {
  rectX : float;
  rectY : float;
  textX : float;
  textY : float;
  text : string
}.
End HoverLabel.

Module Group.
Record t : Type := mk { key : Z; line : Line.t; hover : option HoverLabel.t }.
End Group.

Module Svg.
Record t : Type := mk { groups : list Group.t; preview : option Line.t }.
End Svg.

Definition onPage (pageNumber : Z) (m : Measurement.t) : bool :=
  (Point.page (fst (Measurement.points m)) =? pageNumber) &&
  (Point.page (snd (Measurement.points m)) =? pageNumber).

Definition pageMeasurements (pageNumber : Z) (s : State) : list Measurement.t :=
  filter (onPage pageNumber) (measurements s).

(** [hoveredId === m.id]. *)
Definition isHovered (s : State) (m : Measurement.t) : bool :=
  match hoveredId s with
  | Some h => h =? Measurement.id m
  | None => false
  end.

Definition renderGroup (s : State) (m : Measurement.t) : Group.t :=
  let x1 := (Point.x (fst (Measurement.points m)) * scale s)%float in
  let y1 := (Point.y (fst (Measurement.points m)) * scale s)%float in
  let x2 := (Point.x (snd (Measurement.points m)) * scale s)%float in
  let y2 := (Point.y (snd (Measurement.points m)) * scale s)%float in
  let midX := ((x1 + x2) / 2)%float in
  let midY := ((y1 + y2) / 2)%float in
  Group.mk (Measurement.id m) (Line.mk x1 y1 x2 y2)
    (if isHovered s m
     then Some (HoverLabel.mk (midX - 40)%float (midY - 24)%float
                              midX (midY - 10)%float
                              (label m (scaleFactor s)))
     else None).

Definition renderPreview (pageNumber : Z) (s : State) : option Line.t :=
  match isDragging s, dragStart s, dragEnd s, dragPage s with
  | true, Some p1, Some p2, Some pg =>
      if pg =? pageNumber
      then Some (Line.mk (Point.x p1 * scale s)%float (Point.y p1 * scale s)%float
                         (Point.x p2 * scale s)%float (Point.y p2 * scale s)%float)
      else None
  | _, _, _, _ => None
  end.

Definition renderOverlay (pageNumber : Z) (s : State) : Svg.t :=
  Svg.mk (map (renderGroup s) (pageMeasurements pageNumber s))
         (renderPreview pageNumber s).

(** The pointer handlers of a measurement's line. *)
Definition lineMouseEnter (m : Measurement.t) : Event :=
  SetHoveredId (Some (Measurement.id m)).

Definition lineMouseLeave : Event :=
  SetHoveredId None.

(** The texts of the label boxes of an overlay, in drawing order. *)
Definition labelTexts (svg : Svg.t) : list string :=
  flat_map (fun g => match Group.hover g with
                     | Some box => [HoverLabel.text box]
                     | None => []
                     end) (Svg.groups svg).

(** ** The file name shown above the viewer *)

(** [str.split(sep)] for a one-character separator: the pieces between
    the separators, [[""]] for the empty string. *)
Fixpoint split (sep : ascii) (str : string) : list string :=
  match str with
  | EmptyString => [EmptyString]
  | String c rest =>
      if Ascii.eqb c sep then EmptyString :: split sep rest
      else
        match split sep rest with
        | segment :: segments => String c segment :: segments
        | [] => [String c EmptyString]
        end
  end.

(** [array.pop()]: the last element, [undefined] (here [None]) for an
    empty array. *)
Definition pop (segments : list string) : option string :=
  nth_error segments (List.length segments - 1).

(** The text next to the file icon; an [undefined] child renders as
    nothing. *)
Definition fileLabel (current : option PDFFile) : string :=
  match current with
  | Some (Path url) =>
      match pop (split "/" url) with
      | Some name => name
      | None => EmptyString
      end
  | Some (File name) => name
  | None => "No file selected"
  end.

Fixpoint contains (c : ascii) (str : string) : bool :=
  match str with
  | EmptyString => false
  | String c' rest => Ascii.eqb c' c || contains c rest
  end.

(** ** The width of a rendered page *)

Definition maxWidth : float := 800.

(** [const [entry] = entries; if (entry) setContainerWidth(entry.contentRect.width)],
    with each entry given by the width of its content box. *)
Definition onResize (entries : list float) (containerWidth : option float) : option float :=
  match entries with
  | width :: _ => Some width
  | [] => containerWidth
  end.

(** [Math.min] of two numbers: NaN if either is NaN, and [-0] counts as
    less than [+0]. *)
Definition mathMin (a b : float) : float :=
  if PrimFloat.is_nan a || PrimFloat.is_nan b then nan
  else if (a <? b)%float then a
  else if (b <? a)%float then b
  else match Prim2SF a with
       | S754_zero true => a
       | _ => b
       end.

(** [containerWidth ? Math.min(containerWidth, maxWidth) : maxWidth]. *)
Definition pageWidth (containerWidth : option float) : float :=
  match containerWidth with
  | Some width => if truthy width then mathMin width maxWidth else maxWidth
  | None => maxWidth
  end.

(** ** Renders and pending updates

    A handler is a closure of the render that created it: what it reads
    ([scale], [measurements], [dragEnd], ...) are the values of that
    render, and its setter calls are queued.  The handlers are given
    here with the two roles apart: [closure] is the render the handler
    was created by and [base] the state its queued updates are applied
    to.  With [base = closure] they are the handlers above. *)

Definition onFileChangeFrom (closure : State) (nextFile : option PDFFile)
    (base : State) : State :=
  base |> setFile nextFile
       |> setNumPages None
       |> setMeasurements []
       |> setScaleFactor None
       |> setHistory []
       |> setRedoStack [].

Definition handleMouseDownFrom (closure : State) (e : MouseEvent) (pageNumber : Z)
    (base : State) : State :=
  base |> setDragStart (Some (normalize e (scale closure) pageNumber))
       |> setDragEnd None
       |> setDragPage (Some pageNumber)
       |> setIsDragging true.

Definition handleMouseMoveFrom (closure : State) (e : MouseEvent)
    (base : State) : State :=
  match isDragging closure, dragStart closure, dragPage closure with
  | true, Some _, Some pg =>
      base |> setDragEnd (Some (normalize e (scale closure) pg))
  | _, _, _ => base
  end.

Definition handleMouseUpFrom (closure : State) (now : Z) (base : State) : State :=
  match isDragging closure, dragStart closure, dragEnd closure with
  | true, Some p1, Some p2 =>
      let pixelDistance := euclidean p1 p2 in
      let newMeasurement := Measurement.mk now (p1, p2) pixelDistance in
      let updatedMeasurements := measurements closure ++ [newMeasurement] in
      base |> setMeasurements updatedMeasurements
           |> setHistoryWith (fun prev => prev ++ [measurements closure])
           |> setRedoStack []
           |> setDragStart None
           |> setDragEnd None
           |> setDragPage None
           |> setIsDragging false
  | _, _, _ => base |> setIsDragging false
  end.

Definition handleUndoFrom (closure : State) (base : State) : State :=
  if (List.length (history closure) =? 0)%nat then base
  else
    match nth_error (history closure) (List.length (history closure) - 1) with
    | None => base (* not taken: the index is in range *)
    | Some prev =>
        base |> setRedoStackWith (fun r => measurements closure :: r)
             |> setMeasurements prev
             |> setHistoryWith (fun h => firstn (List.length h - 1) h)
    end.

Definition handleRedoFrom (closure : State) (base : State) : State :=
  if (List.length (redoStack closure) =? 0)%nat then base
  else
    match nth_error (redoStack closure) 0 with
    | None => base (* not taken: the stack is not empty *)
    | Some next =>
        base |> setMeasurements next
             |> setHistoryWith (fun h => h ++ [measurements closure])
             |> setRedoStackWith (fun r => skipn 1 r)
    end.

Definition stepFrom (closure : State) (ev : Event) (base : State) : State :=
  match ev with
  | FileChange nextFile => onFileChangeFrom closure nextFile base
  | DocumentLoadSuccess n => onDocumentLoadSuccess n base
  | MouseDown e pageNumber => handleMouseDownFrom closure e pageNumber base
  | MouseMove e => handleMouseMoveFrom closure e base
  | MouseUp now => handleMouseUpFrom closure now base
  | Undo => handleUndoFrom closure base
  | Redo => handleRedoFrom closure base
  | SetScale zoom => setScale zoom base
  | SetScaleFactor factor => setScaleFactor factor base
  | SetHoveredId hovered => setHoveredId hovered base
  end.

(** The updates of a press, a release, a click or a change are rendered
    before the next handler runs.  The updates of pointer moves, of
    entering and leaving a line and of the document loader are rendered
    later, and a handler that runs in between still reads the render
    without them. *)
Definition deferred (ev : Event) : bool :=
  match ev with
  | MouseMove _ | SetHoveredId _ | DocumentLoadSuccess _ => true
  | _ => false
  end.

(** What is on screen, which is what the handlers are closures of, and
    the state once every queued update is applied. *)
Record View : Type := mkView {
  rendered : State;
  pending : State
}.

Definition firstRender : View := mkView init init.

(** An event reaches the handler of the current render.  Its updates
    join the queue; when they are not deferred they are rendered at
    once, over what is on screen, the deferred ones still waiting. *)
Definition deliver (v : View) (ev : Event) : View :=
  mkView (if deferred ev then rendered v
          else stepFrom (rendered v) ev (rendered v))
         (stepFrom (rendered v) ev (pending v)).

(** The render that applies everything queued. *)
Definition flush (v : View) : View :=
  mkView (pending v) (pending v).

Inductive Tick : Type :=
| Deliver (ev : Event)
| Flush.

Definition tick (v : View) (t : Tick) : View :=
  match t with
  | Deliver ev => deliver v ev
  | Flush => flush v
  end.

Definition play (v : View) (schedule : list Tick) : View :=
  fold_left tick schedule v.

(** The page passed to the most recent press of a schedule. *)
Definition lastPress (schedule : list Tick) : option Z :=
  fold_left (fun page t => match t with
                           | Deliver (MouseDown _ pageNumber) => Some pageNumber
                           | _ => page
                           end) schedule None.

(** What is queued differs from what is on screen only in the cells
    the deferred handlers write. *)
Definition settled (v : View) : Prop :=
  file (pending v) = file (rendered v) /\
  scale (pending v) = scale (rendered v) /\
  scaleFactor (pending v) = scaleFactor (rendered v) /\
  measurements (pending v) = measurements (rendered v) /\
  history (pending v) = history (rendered v) /\
  redoStack (pending v) = redoStack (rendered v) /\
  isDragging (pending v) = isDragging (rendered v) /\
  dragStart (pending v) = dragStart (rendered v) /\
  dragPage (pending v) = dragPage (rendered v).

(** The drag session of a view keeps to one page: the drag page is the
    page of the start point, and an end point, on screen or queued,
    carries the page of the start point. *)
Definition on_the_drag_page (v : View) : Prop :=
  (forall p, dragStart (rendered v) = Some p ->
     dragPage (rendered v) = Some (Point.page p)) /\
  (forall q, dragEnd (rendered v) = Some q ->
     exists p, dragStart (rendered v) = Some p /\ Point.page q = Point.page p) /\
  (forall q, dragEnd (pending v) = Some q ->
     exists p, dragStart (rendered v) = Some p /\ Point.page q = Point.page p).

Definition view_invariant (v : View) : Prop :=
  settled v /\ on_the_drag_page v /\ store_on_one_page (rendered v).

(** Some press of the schedule was on page [pageNumber]. *)
Definition pressed (schedule : list Tick) (pageNumber : Z) : Prop :=
  exists e, In (Deliver (MouseDown e pageNumber)) schedule.

(** Both points of a measurement are on one page, and a press of the
    schedule was on that page. *)
Definition on_a_pressed_page (schedule : list Tick) (m : Measurement.t) : Prop :=
  same_page m /\ pressed schedule (Point.page (fst (Measurement.points m))).

(** * Properties *)

(** Case analysis on the event that fires, one goal per handler. *)
Ltac event_cases ev :=
  destruct ev as [nf | np | e pg | e | now | | | zoom | factor | hovered];
  cbn [step].

(** Case analysis on the guard of a pointer handler. *)
Ltac abort_cases s :=
  repeat match goal with
         | |- context [match ?b with _ => _ end] =>
             lazymatch b with
             | isDragging s => destruct (isDragging s) eqn:?
             | dragStart s => destruct (dragStart s) eqn:?
             | dragEnd s => destruct (dragEnd s) eqn:?
             | dragPage s => destruct (dragPage s) eqn:?
             end
         end.

(** ** Undo and redo on the history stacks *)

Section UndoRedo.

Variables (f : option PDFFile) (n : option Z) (z : float) (k : option float).
Variables (hov : option Z) (d : bool) (ds de : option Point.t) (dp : option Z).

Let st (m : list Measurement.t) (h r : list (list Measurement.t)) : State :=
  mkState f n z k m h r hov d ds de dp.

Lemma handleUndo_snoc m h prev r :
  handleUndo (st m (h ++ [prev]) r) = st prev h (m :: r).
Proof.
  unfold handleUndo, st; cbn [history measurements redoStack].
  rewrite length_app, Nat.add_1_r; cbn [Nat.eqb].
  replace (S (List.length h) - 1)%nat with (List.length h) by lia.
  rewrite nth_error_app2, Nat.sub_diag by lia; cbn [nth_error].
  unfold setHistoryWith, setMeasurements, setRedoStackWith; cbn.
  rewrite length_app, Nat.add_1_r.
  replace (S (List.length h) - 1)%nat with (List.length h) by lia.
  rewrite firstn_app, Nat.sub_diag, firstn_all; cbn [firstn].
  now rewrite app_nil_r.
Qed.

Lemma handleUndo_nil m r : handleUndo (st m [] r) = st m [] r.
Proof. reflexivity. Qed.

Lemma handleRedo_cons m h next r :
  handleRedo (st m h (next :: r)) = st next (h ++ [m]) r.
Proof. reflexivity. Qed.

Lemma handleRedo_nil m h : handleRedo (st m h []) = st m h [].
Proof. reflexivity. Qed.

End UndoRedo.

Lemma snoc_cases {A} (l : list A) : l = [] \/ exists l' a, l = l' ++ [a].
Proof.
  destruct l as [| a0 l0]; [now left | right].
  destruct (@exists_last _ (a0 :: l0)) as (l' & b & E); [discriminate | eauto].
Qed.

Lemma handleRedo_handleUndo s :
  history s <> [] -> handleRedo (handleUndo s) = s.
Proof.
  destruct s as [f n z k m h r hov d ds de dp]; cbn [history]; intros H.
  destruct (snoc_cases h) as [-> | (h' & prev & ->)]; [congruence |].
  now rewrite handleUndo_snoc, handleRedo_cons.
Qed.

Lemma handleUndo_handleRedo s :
  redoStack s <> [] -> handleUndo (handleRedo s) = s.
Proof.
  destruct s as [f n z k m h r hov d ds de dp]; cbn [redoStack]; intros H.
  destruct r as [| next r]; [congruence |].
  now rewrite handleRedo_cons, handleUndo_snoc.
Qed.

Lemma handleMouseUp_commit now s p1 p2 :
  isDragging s = true -> dragStart s = Some p1 -> dragEnd s = Some p2 ->
  handleMouseUp now s =
  mkState (file s) (numPages s) (scale s) (scaleFactor s)
    (measurements s ++ [Measurement.mk now (p1, p2) (euclidean p1 p2)])
    (history s ++ [measurements s]) [] (hoveredId s) false None None None.
Proof.
  intros Hd Hs He. unfold handleMouseUp. now rewrite Hd, Hs, He.
Qed.

(** Undo and redo touch neither the drag session nor the zoom. *)
Lemma handleUndo_drag s :
  isDragging (handleUndo s) = isDragging s /\
  dragStart (handleUndo s) = dragStart s /\
  dragEnd (handleUndo s) = dragEnd s /\
  dragPage (handleUndo s) = dragPage s.
Proof.
  unfold handleUndo.
  destruct (List.length (history s) =? 0)%nat; [tauto |].
  destruct (nth_error _ _); cbn; tauto.
Qed.

Lemma iter_handleUndo_drag j s :
  isDragging (Nat.iter j handleUndo s) = isDragging s /\
  dragStart (Nat.iter j handleUndo s) = dragStart s /\
  dragEnd (Nat.iter j handleUndo s) = dragEnd s.
Proof.
  induction j as [| j IH]; [cbn; tauto |].
  rewrite Nat.iter_succ.
  destruct (handleUndo_drag (Nat.iter j handleUndo s)) as (-> & -> & -> & _).
  exact IH.
Qed.

(** C1. Undo right after a drag commit puts back the measurement
    sequence held before that commit, and redo right after that undo
    gives back the whole state the commit had produced.  More generally
    redo undoes an effective undo and undo undoes an effective redo, as
    functions on the complete state. *)
Theorem undo_redo_inverse_pair (s : State) (now : Z) (p1 p2 : Point.t)
    (Hdrag : isDragging s = true)
    (Hstart : dragStart s = Some p1)
    (Hend : dragEnd s = Some p2) :
  let committed := handleMouseUp now s in
  measurements (handleUndo committed) = measurements s /\
  history (handleUndo committed) = history s /\
  handleRedo (handleUndo committed) = committed /\
  (forall s', history s' <> [] -> handleRedo (handleUndo s') = s') /\
  (forall s', redoStack s' <> [] -> handleUndo (handleRedo s') = s').
Proof.
  intros committed; subst committed.
  rewrite (handleMouseUp_commit now s p1 p2 Hdrag Hstart Hend).
  rewrite handleUndo_snoc; cbn [measurements history].
  split; [reflexivity |].
  split; [reflexivity |].
  split; [apply handleRedo_cons |].
  split.
  - apply handleRedo_handleUndo.
  - apply handleUndo_handleRedo.
Qed.

Lemma undo_redo_inverse_pair_witness :
  let s := run init [MouseDown (pointer 0 0) 1; MouseMove (pointer 3.75 5)] in
  measurements (handleUndo (handleMouseUp 1000 s)) = [] /\
  handleRedo (handleUndo (handleMouseUp 1000 s)) = handleMouseUp 1000 s.
Proof.
  intros s.
  assert (Hd : isDragging s = true) by (vm_compute; reflexivity).
  assert (Hs : dragStart s = Some (Point.mk 0 0 1)) by (vm_compute; reflexivity).
  assert (He : dragEnd s = Some (Point.mk 3 4 1)) by (vm_compute; reflexivity).
  destruct (undo_redo_inverse_pair s 1000 _ _ Hd Hs He) as (Hm & _ & Hr & _).
  split; [rewrite Hm; vm_compute; reflexivity | exact Hr].
Defined.

(** C2. A drag commit appends the sequence held before the append to
    the undo stack and leaves the redo stack empty, however many undos
    came before the release. *)
Theorem commit_snapshots_and_clears_redo (s : State) (now : Z) (p1 p2 : Point.t)
    (Hdrag : isDragging s = true)
    (Hstart : dragStart s = Some p1)
    (Hend : dragEnd s = Some p2) :
  history (handleMouseUp now s) = history s ++ [measurements s] /\
  redoStack (handleMouseUp now s) = [] /\
  (forall undos, redoStack (handleMouseUp now (Nat.iter undos handleUndo s)) = []).
Proof.
  rewrite (handleMouseUp_commit now s p1 p2 Hdrag Hstart Hend).
  cbn [history redoStack].
  split; [reflexivity |].
  split; [reflexivity |].
  intros undos.
  destruct (iter_handleUndo_drag undos s) as (Hd & Hs & He).
  rewrite Hdrag in Hd; rewrite Hstart in Hs; rewrite Hend in He.
  now rewrite (handleMouseUp_commit now _ p1 p2 Hd Hs He).
Qed.

Lemma commit_snapshots_and_clears_redo_witness :
  let s := run init (drag 0 0 3.75 5 1 1000 ++
                     [Undo; MouseDown (pointer 0 0) 1; MouseMove (pointer 1.25 0)]) in
  redoStack s <> [] /\
  history (handleMouseUp 2000 s) = [[]] /\
  redoStack (handleMouseUp 2000 s) = [].
Proof.
  intros s.
  assert (Hd : isDragging s = true) by (vm_compute; reflexivity).
  assert (Hs : dragStart s = Some (Point.mk 0 0 1)) by (vm_compute; reflexivity).
  assert (He : dragEnd s = Some (Point.mk 1 0 1)) by (vm_compute; reflexivity).
  destruct (commit_snapshots_and_clears_redo s 2000 _ _ Hd Hs He) as (Hh & Hr & _).
  split; [vm_compute; discriminate |].
  split; [rewrite Hh; vm_compute; reflexivity | exact Hr].
Defined.

(** ** Redo order *)

Lemma history_handleUndo s :
  List.length (history (handleUndo s)) = (List.length (history s) - 1)%nat.
Proof.
  destruct s as [f n z k m h r hov d ds de dp].
  destruct (snoc_cases h) as [-> | (h' & prev & ->)]; [reflexivity |].
  rewrite handleUndo_snoc; cbn [history].
  rewrite length_app; cbn [List.length]; lia.
Qed.

Lemma history_iter_handleUndo j s :
  List.length (history (Nat.iter j handleUndo s)) = (List.length (history s) - j)%nat.
Proof.
  induction j as [| j IH]; [cbn; lia |].
  rewrite Nat.iter_succ, history_handleUndo, IH; lia.
Qed.

Lemma length_pos_nonnil {A} (l : list A) : (0 < List.length l)%nat -> l <> [].
Proof. destruct l; cbn; [lia | discriminate]. Qed.

(** C6, as the code has it.  The redo stack is a stack: undo pushes the
    sequence it replaces at the front and redo takes the front, so the
    action undone last is redone first.  After [undos] effective undos,
    [redos] redos lead to the state that [undos - redos] undos lead to. *)
Theorem redo_replays_last_undone_first (s : State) (undos redos : nat)
    (Hdepth : (undos <= List.length (history s))%nat)
    (Hredos : (redos <= undos)%nat) :
  Nat.iter redos handleRedo (Nat.iter undos handleUndo s) =
  Nat.iter (undos - redos) handleUndo s.
Proof.
  induction redos as [| r IH]; [now rewrite Nat.sub_0_r |].
  rewrite Nat.iter_succ, IH by lia.
  replace (undos - r)%nat with (S (undos - S r)) by lia.
  rewrite Nat.iter_succ.
  apply handleRedo_handleUndo, length_pos_nonnil.
  rewrite history_iter_handleUndo; lia.
Qed.

Lemma redo_replays_last_undone_first_witness :
  let s := run init (drag 0 0 3.75 5 1 1000 ++ drag 0 0 1.25 0 1 2000) in
  (2 <= List.length (history s))%nat /\
  Nat.iter 1 handleRedo (Nat.iter 2 handleUndo s) = Nat.iter (2 - 1) handleUndo s.
Proof.
  intros s.
  assert (Hdepth : (2 <= List.length (history s))%nat) by (vm_compute; lia).
  split; [exact Hdepth |].
  apply (redo_replays_last_undone_first s 2 1 Hdepth); lia.
Defined.

(** C6, as the claim has it, fails: after two undos the snapshot queued
    first is the two-measurement sequence, yet redo installs the
    one-measurement sequence queued last. *)
Lemma redo_is_not_fifo :
  let a := Measurement.mk 1000 (Point.mk 0 0 1, Point.mk 3 4 1) 5 in
  let b := Measurement.mk 2000 (Point.mk 0 0 1, Point.mk 1 0 1) 1 in
  let s := run init (drag 0 0 3.75 5 1 1000 ++ drag 0 0 1.25 0 1 2000) in
  let undone := handleUndo (handleUndo s) in
  measurements s = [a; b] /\
  redoStack (handleUndo s) = [[a; b]] /\
  redoStack undone = [[a]; [a; b]] /\
  measurements (handleRedo undone) = [a] /\
  measurements (handleRedo undone) <> [a; b].
Proof.
  vm_compute.
  split; [reflexivity |].
  split; [reflexivity |].
  split; [reflexivity |].
  split; [reflexivity | discriminate].
Qed.

(** ** Document change *)

(** C8. Loading another file empties the measurement sequence and both
    history stacks and makes the calibration factor absent, whatever the
    state was. *)
Theorem document_change_resets (s : State) (nextFile : option PDFFile) :
  let s' := step s (FileChange nextFile) in
  measurements s' = [] /\
  history s' = [] /\
  redoStack s' = [] /\
  scaleFactor s' = None /\
  file s' = nextFile.
Proof.
  destruct s; cbn.
  repeat (split; [reflexivity |]); reflexivity.
Qed.

(** ** Reachable states and the drag session *)

Lemma reachable_run trace : forall s, reachable s -> reachable (run s trace).
Proof.
  induction trace as [| ev trace IH]; intros s Hs; [exact Hs |].
  apply IH, reachable_step, Hs.
Qed.

Lemma handleRedo_drag s :
  isDragging (handleRedo s) = isDragging s /\
  dragStart (handleRedo s) = dragStart s /\
  dragEnd (handleRedo s) = dragEnd s /\
  dragPage (handleRedo s) = dragPage s.
Proof.
  unfold handleRedo.
  destruct (List.length (redoStack s) =? 0)%nat; [tauto |].
  destruct (nth_error _ _); cbn; tauto.
Qed.

Lemma drag_coherent_init : drag_coherent init.
Proof. split; cbn; intros ? H; discriminate H. Qed.

Lemma drag_coherent_step s ev : drag_coherent s -> drag_coherent (step s ev).
Proof.
  intros Hinv.
  event_cases ev; try exact Hinv.
  - (* MouseDown *)
    split; cbn; intros q Hq; [discriminate Hq |].
    now injection Hq as <-.
  - (* MouseMove *)
    unfold handleMouseMove.
    destruct (isDragging s) eqn:Hd; [| exact Hinv].
    destruct (dragStart s) as [p |] eqn:Hs; [| exact Hinv].
    destruct (dragPage s) as [pg |] eqn:Hp; [| exact Hinv].
    destruct Hinv as [_ Hstart].
    specialize (Hstart p Hs). rewrite Hp in Hstart. injection Hstart as ->.
    split; cbn; intros q Hq.
    + injection Hq as <-. split; [exact Hd |].
      exists p; split; [exact Hs | reflexivity].
    + rewrite Hs in Hq; injection Hq as <-. exact Hp.
  - (* MouseUp *)
    destruct Hinv as [Hend Hstart].
    unfold handleMouseUp.
    destruct (isDragging s) eqn:Hd.
    + destruct (dragStart s) as [p |] eqn:Hs.
      * destruct (dragEnd s) as [q |] eqn:He.
        -- split; cbn; intros ? H; discriminate H.
        -- split; cbn; intros ? H; [rewrite He in H; discriminate H |].
           rewrite Hs in H. now apply Hstart.
      * split; cbn; intros ? H.
        -- destruct (Hend _ H) as (_ & p & Hp & _). discriminate Hp.
        -- rewrite Hs in H; discriminate H.
    + split; cbn; intros ? H.
      * destruct (Hend _ H) as (Hd' & _). discriminate Hd'.
      * now apply Hstart.
  - (* Undo *)
    destruct (handleUndo_drag s) as (Hd & Hs & He & Hp).
    unfold drag_coherent. rewrite Hd, Hs, He, Hp. exact Hinv.
  - (* Redo *)
    destruct (handleRedo_drag s) as (Hd & Hs & He & Hp).
    unfold drag_coherent. rewrite Hd, Hs, He, Hp. exact Hinv.
Qed.

Lemma reachable_drag_coherent s : reachable s -> drag_coherent s.
Proof.
  induction 1 as [| s ev _ IH]; [apply drag_coherent_init |].
  now apply drag_coherent_step.
Qed.

(** ** Measurements stay on the page of their drag *)

Lemma store_on_one_page_step s ev :
  drag_coherent s -> store_on_one_page s -> store_on_one_page (step s ev).
Proof.
  intros Hdrag Hstore.
  event_cases ev; try exact Hstore.
  - (* FileChange *)
    repeat split; constructor.
  - (* MouseMove *)
    unfold handleMouseMove. abort_cases s; exact Hstore.
  - (* MouseUp *)
    destruct Hstore as (Hm & Hh & Hr).
    destruct (isDragging s) eqn:Hd; [| unfold handleMouseUp; rewrite Hd; now repeat split].
    destruct (dragStart s) as [p1 |] eqn:Hs;
      [| unfold handleMouseUp; rewrite Hd, Hs; now repeat split].
    destruct (dragEnd s) as [p2 |] eqn:He;
      [| unfold handleMouseUp; rewrite Hd, Hs, He; now repeat split].
    rewrite (handleMouseUp_commit now s p1 p2 Hd Hs He).
    destruct Hdrag as [Hend _].
    destruct (Hend p2 He) as (_ & p & Hp & Hpage).
    rewrite Hs in Hp; injection Hp as <-.
    unfold store_on_one_page; cbn [measurements history redoStack].
    split; [| split].
    + apply Forall_app; split; [exact Hm |].
      constructor; [| constructor].
      unfold same_page; cbn. now symmetry.
    + apply Forall_app; split; [exact Hh |].
      constructor; [exact Hm | constructor].
    + constructor.
  - (* Undo *)
    destruct s as [f n z k m h r hov d ds de dp].
    destruct Hstore as (Hm & Hh & Hr); cbn [measurements history redoStack] in *.
    destruct (snoc_cases h) as [-> | (h' & prev & ->)]; [now repeat split |].
    rewrite handleUndo_snoc.
    apply Forall_app in Hh as [Hh' Hprev].
    unfold store_on_one_page; cbn [measurements history redoStack].
    split; [now inversion Hprev | split; [exact Hh' | now constructor]].
  - (* Redo *)
    destruct s as [f n z k m h r hov d ds de dp].
    destruct Hstore as (Hm & Hh & Hr); cbn [measurements history redoStack] in *.
    destruct r as [| next r]; [now repeat split |].
    rewrite handleRedo_cons.
    unfold store_on_one_page; cbn [measurements history redoStack].
    split; [now inversion Hr | split; [| now inversion Hr]].
    apply Forall_app; split; [exact Hh | now constructor].
Qed.

Lemma reachable_store_on_one_page s : reachable s -> store_on_one_page s.
Proof.
  induction 1 as [| s ev Hs IH]; [repeat split; constructor |].
  apply store_on_one_page_step; [now apply reachable_drag_coherent | exact IH].
Qed.

(** ** Calibration *)

Lemma scaleFactor_step s ev :
  scaleFactor (step s ev) = scaleFactor s \/
  (exists nextFile, ev = FileChange nextFile /\ scaleFactor (step s ev) = None) \/
  (exists factor, ev = SetScaleFactor factor /\ scaleFactor (step s ev) = factor).
Proof.
  event_cases ev.
  - right; left; eauto.
  - now left.
  - now left.
  - left. unfold handleMouseMove. abort_cases s; reflexivity.
  - left. unfold handleMouseUp. abort_cases s; reflexivity.
  - left. unfold handleUndo.
    destruct (List.length (history s) =? 0)%nat; [reflexivity |].
    destruct (nth_error _ _); reflexivity.
  - left. unfold handleRedo.
    destruct (List.length (redoStack s) =? 0)%nat; [reflexivity |].
    destruct (nth_error _ _); reflexivity.
  - now left.
  - right; right; eauto.
  - now left.
Qed.

Lemma from_registry_run trace :
  forall s, from_registry (scaleFactor s) ->
            Forall registry_selection trace ->
            from_registry (scaleFactor (run s trace)).
Proof.
  induction trace as [| ev trace IH]; intros s Hs Hsel; [exact Hs |].
  inversion Hsel as [| ? ? Hev Hrest]; subst.
  apply IH; [| exact Hrest].
  destruct (scaleFactor_step s ev) as [-> | [(? & -> & ->) | (? & -> & ->)]];
    [exact Hs | exact I | exact Hev].
Qed.

(** C10, as the code has it.  The first render is already calibrated:
    the factor starts as the registry's entry for the default
    identifier "125".  From then on only two things write the factor,
    the setter handed to the calibration selector and a document change,
    which makes it absent; so as long as the selector passes registry
    values (or clears), the factor is absent or a registry value in
    every reachable state. *)
Theorem calibration_factor_sources (trace : list Event)
    (Hselector : Forall registry_selection trace) :
  scaleFactor init = lookup drawingCalibrations defaultCalibrationValue /\
  scaleFactor init = Some 0.1661%float /\
  from_registry (scaleFactor (run init trace)) /\
  (forall s ev,
     scaleFactor (step s ev) = scaleFactor s \/
     (exists nextFile, ev = FileChange nextFile /\ scaleFactor (step s ev) = None) \/
     (exists factor, ev = SetScaleFactor factor /\ scaleFactor (step s ev) = factor)).
Proof.
  split; [reflexivity |].
  split; [reflexivity |].
  split; [| exact scaleFactor_step].
  apply from_registry_run; [| exact Hselector].
  exists "125"%string; reflexivity.
Qed.

Lemma calibration_factor_sources_witness :
  let trace := drag 0 0 3.75 5 1 1000 ++
               [SetScaleFactor (Some 0.125%float); Undo; SetScale 2] in
  Forall registry_selection trace /\
  scaleFactor (run init trace) = Some 0.125%float /\
  from_registry (scaleFactor (run init trace)).
Proof.
  intros trace.
  assert (Hselector : Forall registry_selection trace).
  { repeat constructor. exists "100"%string; reflexivity. }
  destruct (calibration_factor_sources trace Hselector) as (_ & _ & Hreg & _).
  split; [exact Hselector |].
  split; [vm_compute; reflexivity | exact Hreg].
Defined.

(** C10, as the claim has it, fails: before any selection, and before
    any event at all, the calibration factor is present. *)
Lemma initial_state_is_calibrated :
  scaleFactor (run init []) = Some 0.1661%float /\
  scaleFactor (run init []) <> None.
Proof. split; [reflexivity | discriminate]. Qed.

(** ** Measurement ids *)

(** C9 fails on the code: the id is the clock reading at the release, so
    two drags released within one millisecond are stored under one id. *)
Lemma ids_collide_within_one_millisecond (t : Z) :
  let s := run init (drag 0 0 3.75 5 1 t ++ drag 0 0 1.25 0 2 t) in
  map Measurement.id (measurements s) = [t; t] /\
  ~ NoDup (map Measurement.id (measurements s)).
Proof.
  cbv zeta.
  assert (E : map Measurement.id
                (measurements (run init (drag 0 0 3.75 5 1 t ++ drag 0 0 1.25 0 2 t)))
              = [t; t]) by (vm_compute; reflexivity).
  rewrite E. split; [reflexivity |].
  intros H. inversion H as [| ? ? Hnotin _]; subst.
  apply Hnotin. now left.
Qed.

(** ** Multiplying by one

    The uncalibrated label multiplies the stored distance by [1].  In
    binary64 that product is the distance itself, for every number
    (signed zeros, infinities and NaN included). *)

Lemma mul_pow52 m : (m * 4503599627370496)%positive = shl52 m.
Proof. rewrite Pos.mul_comm. reflexivity. Qed.

Lemma digits2_shl52 m : Z.pos (digits2_pos (shl52 m)) = Z.pos (digits2_pos m) + 52.
Proof.
  unfold shl52. cbn [Pos.iter digits2_pos].
  repeat rewrite Pos2Z.inj_succ. lia.
Qed.

Lemma shr_shl52 m :
  iter_pos shr_1 52 (Build_shr_record (Z.pos (shl52 m)) false false)
  = Build_shr_record (Z.pos m) false false.
Proof. reflexivity. Qed.

(** The specification of binary64 multiplication, applied to a valid
    number and [1 = 2^52 * 2^-52]: the mantissa product is shifted back
    by 52 bits without any rounding. *)
Lemma SF64mul_one (x : spec_float) :
  valid_binary x = true ->
  SF64mul x (S754_finite false 4503599627370496 (-52)) = x.
Proof.
  destruct x as [s | s | | s m e]; intros Hvalid; cbn [SF64mul SFmul];
    unfold SF64mul, SFmul; rewrite ?xorb_false_r; try reflexivity.
  cbn [valid_binary] in Hvalid.
  unfold bounded, canonical_mantissa in Hvalid.
  apply andb_prop in Hvalid as [Hcanon Hbound].
  apply Z.eqb_eq in Hcanon.
  rewrite mul_pow52.
  unfold binary_round_aux, shr_fexp.
  cbn [Zdigits2 shr_record_of_loc].
  rewrite digits2_shl52.
  replace (Z.pos (digits2_pos m) + 52 + (e + -52)) with (Z.pos (digits2_pos m) + e) by lia.
  rewrite Hcanon.
  replace (e - (e + -52)) with 52 by lia.
  cbn [shr]. rewrite shr_shl52.
  cbn [shr_m loc_of_shr_record round_nearest_even shr_record_of_loc Zdigits2].
  replace (e + -52 + 52) with e by lia.
  rewrite Hcanon, Z.sub_diag. cbn [shr shr_m].
  now rewrite Hbound.
Qed.

Lemma float_mul_1_r (x : float) : (x * 1)%float = x.
Proof.
  apply Prim2SF_inj.
  rewrite mul_spec.
  change (Prim2SF 1) with (S754_finite false 4503599627370496 (-52)).
  apply SF64mul_one, Prim2SF_valid.
Qed.

(** ** [toFixed] on examples, and the rounding it performs *)

Example toFixed_tie_rounds_up : toFixed 0.625 2 = "0.63"%string.
Proof. vm_compute. reflexivity. Qed.

Example toFixed_uses_the_binary_value : toFixed 1.005 2 = "1.00"%string.
Proof. vm_compute. reflexivity. Qed.

Example toFixed_keeps_the_sign : toFixed (-0.001) 2 = "-0.00"%string.
Proof. vm_compute. reflexivity. Qed.

Example toFixed_below_1e21 :
  toFixed 999999999999999900000 2 = "999999999999999868928.00"%string.
Proof. vm_compute. reflexivity. Qed.

Example toFixed_from_1e21 :
  toFixed 1e21 2 = "1e+21"%string /\
  toFixed 1180591620717411303424 2 = "1.1805916207174113e+21"%string /\
  toFixed (-1.2345e25) 2 = "-1.2345e+25"%string.
Proof. vm_compute. repeat split. Qed.

Example toFixed_not_finite :
  toFixed nan 2 = "NaN"%string /\ toFixed infinity 2 = "Infinity"%string.
Proof. vm_compute. split; reflexivity. Qed.

(** With [x = m * 2^e] and [e] negative, the integer [toFixed] prints
    lies within a half of [x * 10^f], the upper end included:
    [x * 10^f - 1/2 < n <= x * 10^f + 1/2], written without fractions. *)
Lemma nearest_scaled_is_nearest m e f :
  e < 0 ->
  let n := nearest_scaled m e f in
  let x10f := 2 * Z.pos m * 10 ^ Z.of_nat f in
  x10f - 2 ^ (- e) < 2 * 2 ^ (- e) * n /\
  2 * 2 ^ (- e) * n <= x10f + 2 ^ (- e).
Proof.
  intros He n x10f; subst n x10f. unfold nearest_scaled.
  destruct (Z.leb_spec 0 e) as [Hle | _]; [lia |].
  replace (1 - e) with (Z.succ (- e)) by lia.
  rewrite Z.pow_succ_r by lia.
  assert (Hpos : 0 < 2 * 2 ^ (- e)) by (apply Z.mul_pos_pos; [lia | apply Z.pow_pos_nonneg; lia]).
  set (a := 2 * Z.pos m * 10 ^ Z.of_nat f + 2 ^ (- e)).
  pose proof (Z.mul_div_le a _ Hpos) as Hlow.
  pose proof (Z.mul_succ_div_gt a _ Hpos) as Hhigh.
  subst a. lia.
Qed.

(** ** The shape of [toFixed]'s result *)

Lemma string_of_uint_digits d :
  forallb is_digit (list_ascii_of_string (NilEmpty.string_of_uint d)) = true.
Proof.
  induction d as [| d IH | d IH | d IH | d IH | d IH | d IH | d IH | d IH | d IH | d IH];
    cbn [NilEmpty.string_of_uint list_ascii_of_string forallb];
    [reflexivity | rewrite IH; reflexivity ..].
Qed.

Lemma digits_are_digits n : forallb is_digit (digits n) = true.
Proof.
  unfold digits, NilZero.string_of_uint.
  destruct (N.to_uint (Z.to_N n)) eqn:E; try (rewrite <- E at 1); 
  try apply string_of_uint_digits; reflexivity.
Qed.

Lemma digits_nonempty n : digits n <> [].
Proof.
  unfold digits, NilZero.string_of_uint.
  destruct (N.to_uint (Z.to_N n)); discriminate.
Qed.

Lemma forallb_firstn {A} (p : A -> bool) j l :
  forallb p l = true -> forallb p (firstn j l) = true.
Proof.
  revert j; induction l as [| a l IH]; intros [| j] H; cbn in *; try reflexivity.
  apply andb_prop in H as [-> H]. now rewrite IH.
Qed.

Lemma forallb_skipn {A} (p : A -> bool) j l :
  forallb p l = true -> forallb p (skipn j l) = true.
Proof.
  revert j; induction l as [| a l IH]; intros [| j] H; cbn in *; try reflexivity; try exact H.
  apply andb_prop in H as [_ H]. now apply IH.
Qed.

Lemma forallb_repeat_zero j : forallb is_digit (repeat "0"%char j) = true.
Proof. induction j as [| j IH]; [reflexivity | exact IH]. Qed.

Lemma fixed_form_parts f (whole fraction : list ascii) :
  whole <> [] -> List.length fraction = f ->
  forallb is_digit whole = true -> forallb is_digit fraction = true ->
  fixed_form f (whole ++ "."%char :: fraction) = true.
Proof.
  intros Hne Hlen Hw Hf. unfold fixed_form.
  assert (Hpos : (0 < List.length whole)%nat) by (destruct whole; [congruence | cbn; lia]).
  rewrite length_app; cbn [List.length]. rewrite Hlen.
  replace (List.length whole + S f - f - 1)%nat with (List.length whole) by lia.
  rewrite firstn_app, Nat.sub_diag, firstn_all; cbn [firstn].
  rewrite app_nil_r, Hw.
  rewrite skipn_app, Nat.sub_diag, skipn_all; cbn [skipn app].
  rewrite Hf. cbn [Ascii.eqb Bool.eqb andb].
  rewrite !andb_true_r. apply Nat.leb_le; lia.
Qed.

Lemma fixed_notation_form n f :
  f <> 0%nat -> fixed_form f (fixed_notation n f) = true.
Proof.
  intros Hf. unfold fixed_notation.
  destruct (Nat.eqb_spec f 0) as [| _]; [congruence |].
  set (m := if (List.length (digits n) <=? f)%nat
            then repeat "0"%char (f + 1 - List.length (digits n)) ++ digits n
            else digits n).
  assert (Hdigits : forallb is_digit m = true).
  { subst m. destruct (_ <=? _)%nat; [| apply digits_are_digits].
    rewrite forallb_app, forallb_repeat_zero. apply digits_are_digits. }
  assert (Hlong : (f < List.length m)%nat).
  { subst m. destruct (Nat.leb_spec (List.length (digits n)) f) as [Hle | Hlt]; [| exact Hlt].
    rewrite length_app, repeat_length. lia. }
  apply fixed_form_parts.
  - intros E. apply (f_equal (@List.length _)) in E.
    rewrite length_firstn in E. cbn in E. lia.
  - rewrite length_skipn. lia.
  - now apply forallb_firstn.
  - now apply forallb_skipn.
Qed.

Lemma first_digit_is_not_a_sign c : is_digit c = true -> Ascii.eqb c "-" = false.
Proof.
  intros H. destruct (Ascii.eqb_spec c "-") as [-> | ]; [discriminate H | reflexivity].
Qed.

Lemma without_sign_fixed_notation n f :
  f <> 0%nat -> without_sign (fixed_notation n f) = fixed_notation n f.
Proof.
  intros Hf.
  pose proof (fixed_notation_form n f Hf) as Hform.
  unfold fixed_form in Hform.
  destruct (fixed_notation n f) as [| c rest] eqn:E; [reflexivity |].
  cbn [without_sign].
  apply andb_prop in Hform as [Hform _]. apply andb_prop in Hform as [Hlen Hwhole].
  apply Nat.leb_le in Hlen. cbn [List.length] in Hlen, Hwhole.
  replace (S (List.length rest) - f - 1)%nat with (S (List.length rest - f - 1)) in Hwhole by lia.
  cbn [firstn forallb] in Hwhole. apply andb_prop in Hwhole as [Hc _].
  now rewrite (first_digit_is_not_a_sign c Hc).
Qed.

Lemma toFixed_two_decimals x :
  fixed_range x = true -> two_decimals (toFixed x 2) = true.
Proof.
  unfold fixed_range, toFixed, two_decimals.
  destruct (Prim2SF x) as [s | s | | s m e]; try discriminate; intros H.
  - rewrite list_ascii_of_string_of_list_ascii, without_sign_fixed_notation by discriminate.
    now apply fixed_notation_form.
  - apply negb_true_iff in H. rewrite H.
    destruct s.
    + cbn [append]. cbn [list_ascii_of_string without_sign Ascii.eqb Bool.eqb].
      rewrite list_ascii_of_string_of_list_ascii.
      now apply fixed_notation_form.
    + cbn [append].
      rewrite list_ascii_of_string_of_list_ascii, without_sign_fixed_notation by discriminate.
      now apply fixed_notation_form.
Qed.

(** ** The label *)

Lemma registry_factors_are_truthy k : from_registry (Some k) -> truthy k = true.
Proof.
  intros (scaleId & H). cbn [lookup drawingCalibrations] in H.
  destruct (String.eqb "125" scaleId); [injection H as <-; reflexivity |].
  destruct (String.eqb "100" scaleId); [injection H as <-; reflexivity |].
  destruct (String.eqb "75" scaleId); [injection H as <-; reflexivity |].
  discriminate H.
Qed.

(** C4, as the code has it.  The label is [toFixed(2)] of the displayed
    distance followed by " m", calibrated or not.  The displayed
    distance is the stored distance times the factor when a factor is
    set (every registry factor counts: none is zero or NaN), and the
    stored distance itself when the factor is absent.  The number
    carries exactly two decimal places whenever the displayed distance
    is finite and below 10^21 in magnitude. *)
Theorem label_scales_with_calibration (m : Measurement.t) (factor : option float) :
  label m factor = (toFixed (displayDistance m factor) 2 ++ " m")%string /\
  (forall k, factor = Some k -> truthy k = true ->
     displayDistance m factor = (Measurement.pixelDistance m * k)%float) /\
  (forall k, from_registry (Some k) -> truthy k = true) /\
  (factor = None -> displayDistance m factor = Measurement.pixelDistance m) /\
  (fixed_range (displayDistance m factor) = true ->
     two_decimals (toFixed (displayDistance m factor) 2) = true).
Proof.
  split; [reflexivity |].
  split; [intros k -> Hk; unfold displayDistance, factorOr1; now rewrite Hk |].
  split; [exact registry_factors_are_truthy |].
  split; [intros ->; apply float_mul_1_r |].
  apply toFixed_two_decimals.
Qed.

Lemma label_scales_with_calibration_witness :
  let m := Measurement.mk 1000 (Point.mk 0 0 1, Point.mk 3 4 1) 5 in
  displayDistance m (Some 0.125%float) = 0.625%float /\
  two_decimals (toFixed (displayDistance m (Some 0.125%float)) 2) = true /\
  label m (Some 0.125%float) = "0.63 m"%string /\
  displayDistance m None = 5%float /\
  label m None = "5.00 m"%string.
Proof.
  intros m.
  destruct (label_scales_with_calibration m (Some 0.125%float))
    as (_ & Hscaled & _ & _ & Hshape).
  destruct (label_scales_with_calibration m None) as (_ & _ & _ & Hraw & _).
  split; [rewrite (Hscaled _ eq_refl eq_refl); vm_compute; reflexivity |].
  split; [apply Hshape; vm_compute; reflexivity |].
  split; [vm_compute; reflexivity |].
  split; [rewrite (Hraw eq_refl); reflexivity | vm_compute; reflexivity].
Defined.

(** C4, as the claim has it, fails: a displayed distance of 10^21 or
    more is written in exponential notation.  The first drag below is
    made on the first render, the second measurement is given as such. *)
Lemma long_distance_label_has_no_decimals :
  let s := run init (drag 0 0 1e22 0 1 1000) in
  let m := Measurement.mk 1000 (Point.mk 0 0 1, Point.mk 1e21 0 1) 1e21 in
  map (fun m => label m (scaleFactor s)) (measurements s) = ["1.3288e+21 m"%string] /\
  map (fun m => two_decimals (toFixed (displayDistance m (scaleFactor s)) 2))
      (measurements s) = [false] /\
  label m None = "1e+21 m"%string /\
  two_decimals (toFixed (displayDistance m None) 2) = false.
Proof.
  cbv zeta.
  split; [vm_compute; reflexivity |].
  split; [vm_compute; reflexivity |].
  split; vm_compute; reflexivity.
Qed.

(** ** Ids when the clock advances between releases *)

Lemma ids_fresh_weaken used now snapshot :
  ids_fresh used snapshot -> ids_fresh (now :: used) snapshot.
Proof. intros [Hnodup Hincl]. split; [exact Hnodup | now apply incl_tl]. Qed.

Lemma ids_fresh_everywhere_weaken used now s :
  ids_fresh_everywhere used s -> ids_fresh_everywhere (now :: used) s.
Proof.
  intros (Hm & Hh & Hr). split; [now apply ids_fresh_weaken |].
  split; (eapply Forall_impl; [| eassumption]); intros; now apply ids_fresh_weaken.
Qed.

Lemma ids_fresh_step used s ev :
  (forall now, ev = MouseUp now -> ~ In now used) ->
  ids_fresh_everywhere used s ->
  ids_fresh_everywhere (release_times [ev] ++ used) (step s ev).
Proof.
  intros Hnew Hinv.
  event_cases ev; cbn [release_times flat_map app]; try exact Hinv.
  - (* FileChange *)
    split; [split; [constructor | intros ? []] | split; constructor].
  - (* MouseMove *)
    unfold handleMouseMove. abort_cases s; exact Hinv.
  - (* MouseUp *)
    specialize (Hnew now eq_refl).
    pose proof (ids_fresh_everywhere_weaken used now s Hinv) as (Hm & Hh & Hr).
    destruct (isDragging s) eqn:Hd;
      [| unfold handleMouseUp; rewrite Hd; exact (conj Hm (conj Hh Hr))].
    destruct (dragStart s) as [p1 |] eqn:Hs;
      [| unfold handleMouseUp; rewrite Hd, Hs; exact (conj Hm (conj Hh Hr))].
    destruct (dragEnd s) as [p2 |] eqn:He;
      [| unfold handleMouseUp; rewrite Hd, Hs, He; exact (conj Hm (conj Hh Hr))].
    rewrite (handleMouseUp_commit now s p1 p2 Hd Hs He).
    unfold ids_fresh_everywhere; cbn [measurements history redoStack].
    split; [| split; [| constructor]].
    + destruct Hinv as ((Hnodup & Hincl) & _).
      split.
      * rewrite map_app; cbn [map Measurement.id].
        apply NoDup_app; [exact Hnodup | repeat constructor; intros [] |].
        intros t Ht [<- | []]. apply Hnew, Hincl, Ht.
      * rewrite map_app; cbn [map Measurement.id].
        apply incl_app; [now apply incl_tl | intros t [<- | []]; now left].
    + apply Forall_app; split; [exact Hh | now constructor].
  - (* Undo *)
    destruct s as [f n z k m h r hov d ds de dp].
    destruct Hinv as (Hm & Hh & Hr); cbn [measurements history redoStack] in *.
    destruct (snoc_cases h) as [-> | (h' & prev & ->)]; [exact (conj Hm (conj Hh Hr)) |].
    rewrite handleUndo_snoc.
    apply Forall_app in Hh as [Hh' Hprev].
    unfold ids_fresh_everywhere; cbn [measurements history redoStack].
    split; [now inversion Hprev | split; [exact Hh' | now constructor]].
  - (* Redo *)
    destruct s as [f n z k m h r hov d ds de dp].
    destruct Hinv as (Hm & Hh & Hr); cbn [measurements history redoStack] in *.
    destruct r as [| next r]; [exact (conj Hm (conj Hh Hr)) |].
    rewrite handleRedo_cons.
    unfold ids_fresh_everywhere; cbn [measurements history redoStack].
    split; [now inversion Hr | split; [| now inversion Hr]].
    apply Forall_app; split; [exact Hh | now constructor].
Qed.

Lemma release_times_cons ev trace :
  release_times (ev :: trace) = release_times [ev] ++ release_times trace.
Proof. unfold release_times; cbn [flat_map]. now rewrite app_nil_r. Qed.

Lemma ids_fresh_run trace :
  forall used s,
    ids_fresh_everywhere used s ->
    NoDup (release_times trace) ->
    (forall now, In now (release_times trace) -> ~ In now used) ->
    exists used', ids_fresh_everywhere used' (run s trace).
Proof.
  induction trace as [| ev trace IH]; intros used s Hinv Hnodup Hnew; [now exists used |].
  rewrite release_times_cons in Hnodup, Hnew.
  apply (IH (release_times [ev] ++ used) (step s ev)).
  - apply ids_fresh_step; [| exact Hinv].
    intros now ->. apply Hnew. now left.
  - now apply NoDup_app_remove_l in Hnodup.
  - intros now Hin Hused. apply in_app_or in Hused as [Hev | Hused].
    + destruct ev; try contradiction Hev.
      destruct Hev as [<- | []].
      cbn [release_times flat_map app] in Hnodup.
      inversion Hnodup as [| ? ? Hnotin _]; subst. now apply Hnotin.
    + apply (Hnew now); [apply in_or_app; now right | exact Hused].
Qed.

(** When no two releases of a session read the same clock value, the
    ids of the stored measurements are pairwise distinct. *)
Theorem ids_distinct_when_clock_advances (trace : list Event)
    (Hclock : NoDup (release_times trace)) :
  NoDup (map Measurement.id (measurements (run init trace))).
Proof.
  destruct (ids_fresh_run trace [] init) as (used & (Hnodup & _) & _).
  - split; [split; [constructor | intros ? []] | split; constructor].
  - exact Hclock.
  - intros ? _ [].
  - exact Hnodup.
Qed.

Lemma ids_distinct_when_clock_advances_witness :
  let trace := drag 0 0 3.75 5 1 1000 ++ drag 0 0 1.25 0 2 1001 in
  NoDup (release_times trace) /\
  NoDup (map Measurement.id (measurements (run init trace))).
Proof.
  intros trace.
  assert (Hclock : NoDup (release_times trace)).
  { vm_compute. repeat constructor; cbn; intuition discriminate. }
  split; [exact Hclock | exact (ids_distinct_when_clock_advances trace Hclock)].
Defined.

(** * Further properties of the viewer *)

(** ** Undo and redo move a cursor in a linear log *)

Lemma timeline_handleUndo s : timeline (handleUndo s) = timeline s.
Proof.
  destruct s as [f n z k m h r hov d ds de dp].
  destruct (snoc_cases h) as [-> | (h' & prev & ->)]; [reflexivity |].
  rewrite handleUndo_snoc. unfold timeline; cbn [history measurements redoStack].
  now rewrite <- app_assoc.
Qed.

Lemma timeline_handleRedo s : timeline (handleRedo s) = timeline s.
Proof.
  destruct s as [f n z k m h r hov d ds de dp].
  destruct r as [| next r]; [reflexivity |].
  rewrite handleRedo_cons. unfold timeline; cbn [history measurements redoStack].
  now rewrite <- app_assoc.
Qed.

(** Undo and redo neither drop nor create a snapshot: the undo stack,
    the current sequence and the redo stack, read in a row, are the same
    before and after, also when the stack to pop is empty.  Only the
    position of the current sequence moves, by one place. *)
Theorem undo_redo_keep_every_snapshot (s : State) :
  timeline (handleUndo s) = timeline s /\
  timeline (handleRedo s) = timeline s /\
  List.length (history (handleUndo s)) = (List.length (history s) - 1)%nat /\
  List.length (redoStack (handleRedo s)) = (List.length (redoStack s) - 1)%nat.
Proof.
  split; [apply timeline_handleUndo |].
  split; [apply timeline_handleRedo |].
  split; [apply history_handleUndo |].
  destruct s as [f n z k m h r hov d ds de dp].
  destruct r as [| next r]; [reflexivity |].
  rewrite handleRedo_cons; cbn [redoStack List.length]. lia.
Qed.

Lemma proper_prefixes_snoc l m :
  proper_prefixes (l ++ [m]) = proper_prefixes l ++ [l].
Proof.
  unfold proper_prefixes.
  rewrite length_app, Nat.add_1_r, seq_S, map_app; cbn [map Nat.add].
  rewrite firstn_app, Nat.sub_diag, firstn_all; cbn [firstn].
  rewrite app_nil_r. f_equal.
  apply map_ext_in. intros i Hi. apply in_seq in Hi.
  rewrite firstn_app.
  replace (i - List.length l)%nat with 0%nat by lia.
  cbn [firstn]. now rewrite app_nil_r.
Qed.

Lemma proper_prefixes_length l :
  List.length (proper_prefixes l) = List.length l.
Proof. unfold proper_prefixes. now rewrite length_map, length_seq. Qed.

Lemma linear_log_init : linear_log init.
Proof. split; [reflexivity | exact I]. Qed.

Lemma linear_log_step s ev : linear_log s -> linear_log (step s ev).
Proof.
  intros Hlog.
  event_cases ev; try exact Hlog.
  - (* FileChange *)
    split; [reflexivity | exact I].
  - (* MouseMove *)
    unfold handleMouseMove. abort_cases s; exact Hlog.
  - (* MouseUp *)
    destruct (isDragging s) eqn:Hd; [| unfold handleMouseUp; rewrite Hd; exact Hlog].
    destruct (dragStart s) as [p1 |] eqn:Hs;
      [| unfold handleMouseUp; rewrite Hd, Hs; exact Hlog].
    destruct (dragEnd s) as [p2 |] eqn:He;
      [| unfold handleMouseUp; rewrite Hd, Hs, He; exact Hlog].
    rewrite (handleMouseUp_commit now s p1 p2 Hd Hs He).
    destruct Hlog as [Hh _].
    split; cbn [history measurements redoStack]; [| exact I].
    now rewrite proper_prefixes_snoc, Hh.
  - (* Undo *)
    destruct s as [f n z k m h r hov d ds de dp].
    destruct Hlog as [Hh Hr]; cbn [history measurements redoStack] in *.
    destruct (snoc_cases h) as [-> | (h' & prev & ->)]; [now split |].
    rewrite handleUndo_snoc.
    destruct (snoc_cases m) as [-> | (m' & x & ->)].
    { apply (f_equal (@List.length _)) in Hh.
      rewrite length_app in Hh; cbn in Hh; lia. }
    rewrite proper_prefixes_snoc in Hh.
    apply app_inj_tail in Hh as [-> ->].
    split; cbn [history measurements redoStack]; [reflexivity |].
    split; [now exists x | exact Hr].
  - (* Redo *)
    destruct s as [f n z k m h r hov d ds de dp].
    destruct Hlog as [Hh Hr]; cbn [history measurements redoStack] in *.
    destruct r as [| next r]; [now split |].
    rewrite handleRedo_cons.
    destruct Hr as [(x & ->) Hr].
    split; cbn [history measurements redoStack]; [| exact Hr].
    now rewrite proper_prefixes_snoc, Hh.
Qed.

Lemma reachable_linear_log s : reachable s -> linear_log s.
Proof.
  induction 1 as [| s ev _ IH]; [apply linear_log_init | now apply linear_log_step].
Qed.

Lemma grows_from_extends current later :
  grows_from current later ->
  forall next, In next later ->
    firstn (List.length current) next = current /\
    (List.length current < List.length next)%nat.
Proof.
  revert current; induction later as [| a later IH]; intros current Hg next Hin;
    [contradiction Hin |].
  destruct Hg as [(m & ->) Hg].
  destruct Hin as [<- | Hin].
  - rewrite firstn_app, Nat.sub_diag, firstn_all; cbn [firstn].
    rewrite app_nil_r, length_app; cbn [List.length]. split; [reflexivity | lia].
  - destruct (IH _ Hg next Hin) as [Hpre Hlen].
    rewrite length_app in Hpre, Hlen; cbn [List.length] in Hpre, Hlen.
    split; [| lia].
    apply (f_equal (firstn (List.length current))) in Hpre.
    rewrite firstn_firstn in Hpre.
    replace (Nat.min (List.length current) (List.length current + 1))
      with (List.length current) in Hpre by lia.
    rewrite Hpre, firstn_app, Nat.sub_diag, firstn_all; cbn [firstn].
    now rewrite app_nil_r.
Qed.

(** In every reachable state the undo stack is exactly the list of the
    shorter prefixes of the store, shortest first (so it is as deep as
    the store is long), and every snapshot on the redo stack extends the
    store by at least one measurement. *)
Theorem history_is_the_prefixes_of_the_store (s : State) (Hreach : reachable s) :
  history s = map (fun i => firstn i (measurements s))
                  (seq 0 (List.length (measurements s))) /\
  List.length (history s) = List.length (measurements s) /\
  (forall next, In next (redoStack s) ->
     firstn (List.length (measurements s)) next = measurements s /\
     (List.length (measurements s) < List.length next)%nat).
Proof.
  destruct (reachable_linear_log s Hreach) as [Hh Hr].
  split; [exact Hh |].
  split; [rewrite Hh; apply proper_prefixes_length |].
  now apply grows_from_extends.
Qed.

Lemma history_is_the_prefixes_of_the_store_witness :
  let a := Measurement.mk 1000 (Point.mk 0 0 1, Point.mk 3 4 1) 5 in
  let b := Measurement.mk 2000 (Point.mk 0 0 1, Point.mk 1 0 1) 1 in
  let c := Measurement.mk 3000 (Point.mk 0 0 2, Point.mk 0 1 2) 1 in
  let s := run init (drag 0 0 3.75 5 1 1000 ++ drag 0 0 1.25 0 1 2000 ++
                     drag 0 0 0 1.25 2 3000 ++ [Undo]) in
  measurements s = [a; b] /\
  history s = [[]; [a]] /\
  redoStack s = [[a; b; c]].
Proof.
  intros a b c s.
  assert (Hreach : reachable s) by (apply reachable_run, reachable_init).
  assert (Hm : measurements s = [a; b]) by (vm_compute; reflexivity).
  assert (Hr : redoStack s = [[a; b; c]]) by (vm_compute; reflexivity).
  destruct (history_is_the_prefixes_of_the_store s Hreach) as (Hh & _ & _).
  split; [exact Hm |]. split; [| exact Hr].
  rewrite Hh, Hm. reflexivity.
Defined.

(** In a reachable state undo removes exactly the most recent
    measurement and does nothing when the store is empty; redo puts
    exactly one measurement back at the end. *)
Theorem undo_removes_the_last_measurement (s : State) (Hreach : reachable s) :
  measurements (handleUndo s) = removelast (measurements s) /\
  (measurements s = [] -> handleUndo s = s) /\
  (measurements s <> [] -> redoStack (handleUndo s) = measurements s :: redoStack s) /\
  (redoStack s <> [] ->
     exists m, measurements (handleRedo s) = measurements s ++ [m]).
Proof.
  destruct (reachable_linear_log s Hreach) as [Hh Hr].
  destruct s as [f n z k m h r hov d ds de dp]; cbn [history measurements redoStack] in *.
  destruct (snoc_cases m) as [-> | (m' & x & ->)].
  - cbn in Hh; subst h. rewrite handleUndo_nil; cbn [measurements].
    split; [reflexivity |]. split; [reflexivity |]. split; [congruence |].
    intros Hne. destruct r as [| next r]; [congruence |].
    destruct Hr as [(y & ->) _]. rewrite handleRedo_cons. now exists y.
  - rewrite proper_prefixes_snoc in Hh; subst h.
    rewrite handleUndo_snoc; cbn [measurements redoStack].
    split; [now rewrite removelast_last |].
    split; [intros E; now apply app_eq_nil in E as [_ E] |].
    split; [reflexivity |].
    intros Hne. destruct r as [| next r]; [congruence |].
    destruct Hr as [(y & ->) _]. rewrite handleRedo_cons. now exists y.
Qed.

Lemma undo_removes_the_last_measurement_witness :
  let a := Measurement.mk 1000 (Point.mk 0 0 1, Point.mk 3 4 1) 5 in
  let s := run init (drag 0 0 3.75 5 1 1000 ++ drag 0 0 1.25 0 1 2000) in
  measurements (handleUndo s) = [a].
Proof.
  intros a s.
  assert (Hreach : reachable s) by (apply reachable_run, reachable_init).
  destruct (undo_removes_the_last_measurement s Hreach) as (Hu & _).
  rewrite Hu. vm_compute. reflexivity.
Defined.

(** ** Presses and releases *)

(** A press followed at once by a release, a click, creates nothing:
    the store and both stacks are as before, and no drag is left
    active.  This holds from every state, also when the press
    interrupts a drag that already had an end point. *)
Theorem click_creates_nothing (s : State) (e : MouseEvent) (pageNumber now : Z) :
  let s' := handleMouseUp now (handleMouseDown e pageNumber s) in
  measurements s' = measurements s /\
  history s' = history s /\
  redoStack s' = redoStack s /\
  isDragging s' = false /\
  dragEnd s' = None.
Proof.
  destruct s as [f n z k m h r hov d ds de dp]; cbn.
  split; [reflexivity |]. split; [reflexivity |]. split; [reflexivity |].
  split; reflexivity.
Qed.

Lemma isDragging_handleMouseUp now s : isDragging (handleMouseUp now s) = false.
Proof. unfold handleMouseUp. abort_cases s; reflexivity. Qed.

Lemma handleMouseUp_idle now s : isDragging s = false -> handleMouseUp now s = s.
Proof.
  destruct s as [f n z k m h r hov d ds de dp]; cbn [isDragging]; intros ->.
  reflexivity.
Qed.

Lemma handleMouseMove_idle e s : isDragging s = false -> handleMouseMove e s = s.
Proof. intros H. unfold handleMouseMove. now rewrite H. Qed.

(** A release closes the gesture, whether it committed or not: until
    the next press, pointer moves and further releases leave the whole
    state as it is.  In particular a release delivered twice commits
    once. *)
Theorem release_closes_the_gesture (s : State) (now : Z) :
  isDragging (handleMouseUp now s) = false /\
  (forall e, handleMouseMove e (handleMouseUp now s) = handleMouseUp now s) /\
  (forall later, handleMouseUp later (handleMouseUp now s) = handleMouseUp now s) /\
  (forall trace,
     Forall (fun ev => (exists e, ev = MouseMove e) \/ (exists t, ev = MouseUp t)) trace ->
     run (handleMouseUp now s) trace = handleMouseUp now s).
Proof.
  pose proof (isDragging_handleMouseUp now s) as Hidle.
  split; [exact Hidle |].
  split; [intros e; now apply handleMouseMove_idle |].
  split; [intros later; now apply handleMouseUp_idle |].
  induction trace as [| ev trace IH]; intros Hall; [reflexivity |].
  inversion Hall as [| ? ? Hev Hrest]; subst.
  cbn [run fold_left].
  destruct Hev as [(e & ->) | (t & ->)]; cbn [step].
  - rewrite handleMouseMove_idle by exact Hidle. now apply IH.
  - rewrite handleMouseUp_idle by exact Hidle. now apply IH.
Qed.

Lemma release_closes_the_gesture_witness :
  let s := run init [MouseDown (pointer 0 0) 1; MouseMove (pointer 3.75 5)] in
  List.length (measurements
    (run (handleMouseUp 1000 s) [MouseUp 1001; MouseMove (pointer 9 9); MouseUp 1002]))
  = 1%nat.
Proof.
  intros s.
  destruct (release_closes_the_gesture s 1000) as (_ & _ & _ & Hrun).
  rewrite Hrun.
  - vm_compute. reflexivity.
  - constructor; [right; eexists; reflexivity |].
    constructor; [left; eexists; reflexivity |].
    constructor; [right; eexists; reflexivity | constructor].
Defined.

(** ** After a document change *)

Lemma onFileChange_stacks nextFile s :
  history (onFileChange nextFile s) = [] /\ redoStack (onFileChange nextFile s) = [].
Proof. split; reflexivity. Qed.

(** After a document change undo and redo have nothing to act on: no
    sequence of undos and redos changes the state, so the measurements
    of the previous document cannot be brought back. *)
Theorem document_change_forgets_history (s : State) (nextFile : option PDFFile)
    (trace : list Event)
    (Honly : Forall (fun ev => ev = Undo \/ ev = Redo) trace) :
  run (onFileChange nextFile s) trace = onFileChange nextFile s /\
  measurements (run (onFileChange nextFile s) trace) = [].
Proof.
  assert (Hrun : run (onFileChange nextFile s) trace = onFileChange nextFile s).
  { induction Honly as [| ev trace Hev _ IH]; [reflexivity |].
    cbn [run fold_left].
    destruct Hev as [-> | ->]; cbn [step].
    - replace (handleUndo (onFileChange nextFile s)) with (onFileChange nextFile s)
        by (destruct s; reflexivity).
      exact IH.
    - replace (handleRedo (onFileChange nextFile s)) with (onFileChange nextFile s)
        by (destruct s; reflexivity).
      exact IH. }
  split; [exact Hrun | now rewrite Hrun].
Qed.

Lemma document_change_forgets_history_witness :
  let s := run init (drag 0 0 3.75 5 1 1000 ++ drag 0 0 1.25 0 1 2000 ++ [Undo]) in
  measurements s <> [] /\ redoStack s <> [] /\
  measurements (run (onFileChange None s) [Undo; Redo; Redo; Undo]) = [].
Proof.
  intros s.
  assert (Honly : Forall (fun ev => ev = Undo \/ ev = Redo) [Undo; Redo; Redo; Undo])
    by (repeat constructor; auto).
  destruct (document_change_forgets_history s None _ Honly) as (_ & Hm).
  split; [vm_compute; discriminate |].
  split; [vm_compute; discriminate | exact Hm].
Defined.

(** A document change does not end a drag in progress: the drag session
    and the zoom are kept, so a release that follows commits the pending
    gesture as the first measurement of the new document. *)
Theorem document_change_keeps_the_drag (s : State) (nextFile : option PDFFile)
    (now : Z) (p1 p2 : Point.t)
    (Hdrag : isDragging s = true)
    (Hstart : dragStart s = Some p1)
    (Hend : dragEnd s = Some p2) :
  isDragging (onFileChange nextFile s) = true /\
  dragPage (onFileChange nextFile s) = dragPage s /\
  scale (onFileChange nextFile s) = scale s /\
  measurements (handleMouseUp now (onFileChange nextFile s)) =
    [Measurement.mk now (p1, p2) (euclidean p1 p2)] /\
  history (handleMouseUp now (onFileChange nextFile s)) = [[]].
Proof.
  split; [exact Hdrag |]. split; [reflexivity |]. split; [reflexivity |].
  rewrite (handleMouseUp_commit now (onFileChange nextFile s) p1 p2 Hdrag Hstart Hend).
  split; reflexivity.
Qed.

Lemma document_change_keeps_the_drag_witness :
  let s := run init [MouseDown (pointer 0 0) 1; MouseMove (pointer 3.75 5)] in
  measurements (handleMouseUp 1000 (onFileChange (Some (File "other.pdf")) s)) =
    [Measurement.mk 1000 (Point.mk 0 0 1, Point.mk 3 4 1) 5].
Proof.
  intros s.
  assert (Hd : isDragging s = true) by (vm_compute; reflexivity).
  assert (Hs : dragStart s = Some (Point.mk 0 0 1)) by (vm_compute; reflexivity).
  assert (He : dragEnd s = Some (Point.mk 3 4 1)) by (vm_compute; reflexivity).
  destruct (document_change_keeps_the_drag s (Some (File "other.pdf")) 1000 _ _ Hd Hs He)
    as (_ & _ & _ & Hm & _).
  rewrite Hm. vm_compute. reflexivity.
Defined.

(** ** Binary64 facts behind the stored distance *)

Lemma binary_round_aux_sign s m e l : sign_is s (binary_round_aux prec emax s m e l).
Proof.
  unfold binary_round_aux.
  destruct (shr_fexp prec emax m e l) as [mrs e'].
  destruct (shr_fexp prec emax _ e' loc_Exact) as [mrs' e''].
  destruct (shr_m mrs'); [reflexivity | | exact I].
  destruct (e'' <=? emax - prec); reflexivity.
Qed.

Lemma binary_round_aux_opp s m e l :
  binary_round_aux prec emax (negb s) m e l = SFopp (binary_round_aux prec emax s m e l).
Proof.
  unfold binary_round_aux.
  destruct (shr_fexp prec emax m e l) as [mrs e'].
  destruct (shr_fexp prec emax _ e' loc_Exact) as [mrs' e''].
  destruct (shr_m mrs'); [reflexivity | | reflexivity].
  destruct (e'' <=? emax - prec); reflexivity.
Qed.

Lemma binary_normalize_opp m e :
  binary_normalize prec emax (- m) e false = 
  match m with 0 => S754_zero false | _ => SFopp (binary_normalize prec emax m e false) end.
Proof.
  destruct m as [| p | p]; cbn [Z.opp binary_normalize]; [reflexivity | |];
    unfold binary_round; destruct (shl_align _ _ _) as [mz ez].
  - apply (binary_round_aux_opp false).
  - rewrite (binary_round_aux_opp false). 
    destruct (binary_round_aux prec emax false (Z.pos mz) ez loc_Exact) as [[]|[]| |[] ? ?]; reflexivity.
Qed.

(** [x - x] is [+0] for every finite [x]. *)
Lemma SF64sub_diag x :
  match x with S754_zero _ | S754_finite _ _ _ => SF64sub x x = S754_zero false | _ => True end.
Proof.
  destruct x as [[] | [] | | s m e]; try exact I; try reflexivity.
  unfold SF64sub, SFsub. rewrite Z.sub_diag. reflexivity.
Qed.

Lemma float_sub_diag x : isFinite x = true -> (x - x)%float = 0%float.
Proof.
  unfold isFinite. intros H.
  apply Prim2SF_inj. rewrite sub_spec.
  change (Prim2SF 0) with (S754_zero false).
  pose proof (SF64sub_diag (Prim2SF x)) as Hd.
  destruct (Prim2SF x); try discriminate H; exact Hd.
Qed.

(** Swapping the operands of a subtraction keeps the result or flips
    its sign. *)
Lemma SF64sub_swap x y :
  SF64sub y x = SF64sub x y \/ SF64sub y x = SFopp (SF64sub x y).
Proof.
  destruct x as [[] | [] | | sx mx ex], y as [[] | [] | | sy my ey];
    try (left; reflexivity); try (right; reflexivity).
  - right. cbn. now rewrite negb_involutive.
  - right. cbn. now rewrite negb_involutive.
  - unfold SF64sub, SFsub. rewrite (Z.min_comm ey ex).
    set (a := cond_Zopp sx _). set (b := cond_Zopp sy _).
    replace (b - a) with (- (a - b)) by lia.
    rewrite binary_normalize_opp.
    destruct (a - b) eqn:E; [left; reflexivity | right; reflexivity | right; reflexivity].
Qed.

Lemma SF64mul_opp_opp x : SF64mul (SFopp x) (SFopp x) = SF64mul x x.
Proof. destruct x as [[] | [] | | [] m e]; reflexivity. Qed.

Lemma sq_sub_swap a b : sq (b - a) = sq (a - b).
Proof.
  unfold sq. apply Prim2SF_inj. rewrite !mul_spec, !sub_spec.
  destruct (SF64sub_swap (Prim2SF a) (Prim2SF b)) as [-> | ->];
    [reflexivity | apply SF64mul_opp_opp].
Qed.

Lemma euclidean_sym p1 p2 : euclidean p1 p2 = euclidean p2 p1.
Proof. unfold euclidean; cbv zeta. now rewrite (sq_sub_swap (Point.x p2)), (sq_sub_swap (Point.y p2)). Qed.

Lemma SF64mul_self_sign x : sign_is false (SF64mul x x).
Proof.
  destruct x as [[] | [] | | s m e]; try reflexivity; try exact I.
  unfold SF64mul, SFmul. rewrite xorb_nilpotent. apply binary_round_aux_sign.
Qed.

Lemma SF64add_sign x y : sign_is false x -> sign_is false y -> sign_is false (SF64add x y).
Proof.
  destruct x as [sx | sx | | sx mx ex], y as [sy | sy | | sy my ey];
    cbn [sign_is]; intros Hx Hy; subst; try exact I; try reflexivity.
  unfold SF64add, SFadd. cbn [cond_Zopp Z.add binary_normalize].
  unfold binary_round. destruct (shl_align _ _ _) as [mz ez].
  apply binary_round_aux_sign.
Qed.

Lemma SF64sqrt_sign x : sign_is false x -> sign_is false (SF64sqrt x).
Proof.
  destruct x as [sx | sx | | sx mx ex]; cbn [sign_is]; intros Hx; subst;
    try exact I; try reflexivity.
  unfold SF64sqrt, SFsqrt.
  destruct (SFsqrt_core_binary prec emax (Z.pos mx) ex) as [[mz ez] lz].
  apply binary_round_aux_sign.
Qed.

Lemma euclidean_sign p1 p2 : sign_is false (Prim2SF (euclidean p1 p2)).
Proof.
  unfold euclidean, sq; cbv zeta.
  rewrite sqrt_spec, add_spec, !mul_spec.
  apply SF64sqrt_sign, SF64add_sign; apply SF64mul_self_sign.
Qed.

Lemma nonneg_or_nan v :
  sign_is false (Prim2SF v) -> PrimFloat.is_nan v = true \/ (0 <=? v)%float = true.
Proof.
  intros H. unfold PrimFloat.is_nan. rewrite eqb_spec, leb_spec.
  change (Prim2SF 0) with (S754_zero false).
  destruct (Prim2SF v) as [s | s | | s m e]; cbn [sign_is] in H; subst;
    [right; reflexivity | right; reflexivity | left; reflexivity | right; reflexivity].
Qed.

Lemma shr_1_nonneg mrs : 0 <= shr_m mrs -> 0 <= shr_m (shr_1 mrs).
Proof.
  destruct mrs as [m r s]; cbn [shr_m]. intros H.
  destruct m as [| [p | p |] | p]; cbn; lia.
Qed.

Lemma iter_pos_shr_1_nonneg n : forall mrs, 0 <= shr_m mrs -> 0 <= shr_m (iter_pos shr_1 n mrs).
Proof.
  induction n as [n IH | n IH |]; intros mrs H; cbn [iter_pos].
  - apply IH, IH, shr_1_nonneg, H.
  - apply IH, IH, H.
  - apply shr_1_nonneg, H.
Qed.

Lemma shr_fexp_nonneg m e l : 0 <= m -> 0 <= shr_m (fst (shr_fexp prec emax m e l)).
Proof.
  intros H. unfold shr_fexp, shr.
  assert (H0 : 0 <= shr_m (shr_record_of_loc m l)) by (destruct l as [| []]; exact H).
  destruct (fexp prec emax (Zdigits2 m + e) - e); cbn [fst]; try exact H0.
  now apply iter_pos_shr_1_nonneg.
Qed.

Lemma round_nearest_even_nonneg m l : 0 <= m -> 0 <= round_nearest_even m l.
Proof.
  intros H. unfold round_nearest_even.
  destruct l as [| []]; try lia. destruct (Z.even m); lia.
Qed.

Lemma binary_round_aux_not_nan s m e l :
  0 <= m -> not_nan (binary_round_aux prec emax s m e l).
Proof.
  intros H. unfold binary_round_aux.
  pose proof (shr_fexp_nonneg m e l H) as H1.
  destruct (shr_fexp prec emax m e l) as [mrs e']; cbn [fst] in H1.
  pose proof (shr_fexp_nonneg _ e' loc_Exact
                (round_nearest_even_nonneg _ (loc_of_shr_record mrs) H1)) as H2.
  destruct (shr_fexp prec emax _ e' loc_Exact) as [mrs' e'']; cbn [fst] in H2.
  destruct (shr_m mrs'); [exact I | | lia].
  destruct (e'' <=? emax - prec); exact I.
Qed.

Lemma binary_normalize_not_nan m e : not_nan (binary_normalize prec emax m e false).
Proof.
  destruct m as [| p | p]; cbn [binary_normalize]; [exact I | |];
    unfold binary_round; destruct (shl_align _ _ _) as [mz ez];
    apply binary_round_aux_not_nan; lia.
Qed.

Lemma SF64sub_not_nan x y : finite_sf x -> finite_sf y -> not_nan (SF64sub x y).
Proof.
  destruct x as [[] | sx | | sx mx ex], y as [[] | sy | | sy my ey];
    cbn [finite_sf]; intros Hx Hy; try contradiction; try exact I.
  unfold SF64sub, SFsub. apply binary_normalize_not_nan.
Qed.

Lemma SF64mul_self_not_nan x : not_nan x -> not_nan (SF64mul x x).
Proof.
  destruct x as [s | s | | s m e]; intros H; try exact I; try contradiction.
  unfold SF64mul, SFmul. apply binary_round_aux_not_nan. lia.
Qed.

Lemma is_nonneg_number_iff x : is_nonneg_number x <-> sign_is false x /\ not_nan x.
Proof. destruct x; cbn; tauto. Qed.

Lemma SF64add_not_nan x y :
  is_nonneg_number x -> is_nonneg_number y -> not_nan (SF64add x y).
Proof.
  destruct x as [sx | sx | | sx mx ex], y as [sy | sy | | sy my ey];
    cbn [is_nonneg_number]; intros Hx Hy; subst; try contradiction; try exact I.
  unfold SF64add, SFadd. apply binary_normalize_not_nan.
Qed.

Lemma SF64sqrt_not_nan x : is_nonneg_number x -> not_nan (SF64sqrt x).
Proof.
  destruct x as [sx | sx | | sx mx ex]; cbn [is_nonneg_number]; intros Hx; subst;
    try contradiction; try exact I.
  unfold SF64sqrt, SFsqrt, SFsqrt_core_binary.
  set (e' := Z.min _ _). set (m' := match ex - 2 * e' with 0 => _ | Z.pos _ => _ | Z.neg _ => _ end).
  assert (Hm' : 0 <= m').
  { subst m'. destruct (ex - 2 * e'); [lia | | lia]. apply Z.shiftl_nonneg. lia. }
  pose proof (Z.sqrtrem_spec m' Hm') as Hspec.
  destruct (Z.sqrtrem m') as [q r].
  apply binary_round_aux_not_nan. lia.
Qed.

Lemma euclidean_is_a_number p1 p2 :
  isFinite (Point.x p1) = true -> isFinite (Point.y p1) = true ->
  isFinite (Point.x p2) = true -> isFinite (Point.y p2) = true ->
  is_nonneg_number (Prim2SF (euclidean p1 p2)).
Proof.
  unfold isFinite. intros Hx1 Hy1 Hx2 Hy2.
  apply is_nonneg_number_iff. split; [apply euclidean_sign |].
  unfold euclidean, sq; cbv zeta.
  rewrite sqrt_spec, add_spec, !mul_spec, !sub_spec.
  assert (Hfin : forall v, match Prim2SF v with S754_zero _ | S754_finite _ _ _ => true | _ => false end = true -> finite_sf (Prim2SF v)).
  { intros v. destruct (Prim2SF v); cbn; congruence || tauto. }
  apply SF64sqrt_not_nan, is_nonneg_number_iff. split.
  - apply SF64add_sign; apply SF64mul_self_sign.
  - apply SF64add_not_nan; apply is_nonneg_number_iff; split;
      try apply SF64mul_self_sign; apply SF64mul_self_not_nan, SF64sub_not_nan; auto.
Qed.

Lemma nonneg_number_leb v : is_nonneg_number (Prim2SF v) -> (0 <=? v)%float = true.
Proof.
  intros H. rewrite leb_spec. change (Prim2SF 0) with (S754_zero false).
  destruct (Prim2SF v) as [s | s | | s m e]; cbn [is_nonneg_number] in H; subst;
    try contradiction; reflexivity.
Qed.

(** ** What holds of every stored measurement *)

Section EverySnapshot.

Variables P P' : Measurement.t -> Prop.

(** One step carries [P] of every stored measurement over to a weaker
    [P'] that holds of whatever the step may append. *)
Lemma in_every_snapshot_step s ev :
  (forall m, P m -> P' m) ->
  (forall now p1 p2,
     ev = MouseUp now -> P' (Measurement.mk now (p1, p2) (euclidean p1 p2))) ->
  in_every_snapshot P s -> in_every_snapshot P' (step s ev).
Proof.
  intros Hweak Hcommit Hinv.
  assert (Hinv' : in_every_snapshot P' s).
  { destruct Hinv as (Hm & Hh & Hr).
    split; [| split].
    - eapply Forall_impl; [exact Hweak | exact Hm].
    - eapply Forall_impl; [| exact Hh].
      intros snapshot Hs. eapply Forall_impl; [exact Hweak | exact Hs].
    - eapply Forall_impl; [| exact Hr].
      intros snapshot Hs. eapply Forall_impl; [exact Hweak | exact Hs]. }
  clear Hinv Hweak.
  event_cases ev; try exact Hinv'.
  - (* FileChange *)
    split; [constructor | split; constructor].
  - (* MouseMove *)
    unfold handleMouseMove. abort_cases s; exact Hinv'.
  - (* MouseUp *)
    destruct (isDragging s) eqn:Hd; [| unfold handleMouseUp; rewrite Hd; exact Hinv'].
    destruct (dragStart s) as [p1 |] eqn:Hs;
      [| unfold handleMouseUp; rewrite Hd, Hs; exact Hinv'].
    destruct (dragEnd s) as [p2 |] eqn:He;
      [| unfold handleMouseUp; rewrite Hd, Hs, He; exact Hinv'].
    rewrite (handleMouseUp_commit now s p1 p2 Hd Hs He).
    destruct Hinv' as (Hm & Hh & _).
    unfold in_every_snapshot; cbn [measurements history redoStack].
    split; [| split; [| constructor]].
    + apply Forall_app; split; [exact Hm |].
      constructor; [now apply Hcommit | constructor].
    + apply Forall_app; split; [exact Hh | now constructor].
  - (* Undo *)
    destruct s as [f n z k m h r hov d ds de dp].
    destruct Hinv' as (Hm & Hh & Hr); cbn [measurements history redoStack] in *.
    destruct (snoc_cases h) as [-> | (h' & prev & ->)];
      [exact (conj Hm (conj Hh Hr)) |].
    rewrite handleUndo_snoc.
    apply Forall_app in Hh as [Hh' Hprev].
    unfold in_every_snapshot; cbn [measurements history redoStack].
    split; [now inversion Hprev | split; [exact Hh' | now constructor]].
  - (* Redo *)
    destruct s as [f n z k m h r hov d ds de dp].
    destruct Hinv' as (Hm & Hh & Hr); cbn [measurements history redoStack] in *.
    destruct r as [| next r]; [exact (conj Hm (conj Hh Hr)) |].
    rewrite handleRedo_cons.
    unfold in_every_snapshot; cbn [measurements history redoStack].
    split; [now inversion Hr | split; [| now inversion Hr]].
    apply Forall_app; split; [exact Hh | now constructor].
Qed.

Lemma in_every_snapshot_timeline s :
  in_every_snapshot P s ->
  forall snapshot m, In snapshot (timeline s) -> In m snapshot -> P m.
Proof.
  intros (Hm & Hh & Hr) snapshot m Hin.
  assert (Hall : Forall (Forall P) (timeline s)).
  { unfold timeline. apply Forall_app; split; [exact Hh | now constructor]. }
  apply Forall_forall.
  exact (proj1 (Forall_forall _ _) Hall snapshot Hin).
Qed.

End EverySnapshot.

(** A property of whatever a release may append holds of every
    measurement a reachable state stores. *)
Lemma reachable_in_every_snapshot (P : Measurement.t -> Prop) :
  (forall now p1 p2, P (Measurement.mk now (p1, p2) (euclidean p1 p2))) ->
  forall s, reachable s -> in_every_snapshot P s.
Proof.
  intros Hcommit s Hreach.
  induction Hreach as [| s ev _ IH].
  - split; [constructor | split; constructor].
  - apply (in_every_snapshot_step P P); auto.
Qed.

(** ** The stored distance *)

(** In a reachable state the distance stored with a measurement, in the
    store or in any snapshot, is the distance of its two stored points:
    nothing ever changes one without the other. *)
Theorem stored_distance_matches_the_points (s : State) (Hreach : reachable s) :
  forall snapshot m,
    In snapshot (timeline s) -> In m snapshot ->
    Measurement.pixelDistance m =
      euclidean (fst (Measurement.points m)) (snd (Measurement.points m)).
Proof.
  apply (in_every_snapshot_timeline
           (fun m => Measurement.pixelDistance m =
                     euclidean (fst (Measurement.points m)) (snd (Measurement.points m)))).
  apply reachable_in_every_snapshot; [| exact Hreach].
  reflexivity.
Qed.

Lemma stored_distance_matches_the_points_witness :
  let a := Measurement.mk 1000 (Point.mk 0 0 1, Point.mk 3 4 1) 5 in
  let b := Measurement.mk 2000 (Point.mk 0 0 1, Point.mk 1 0 1) 1 in
  let s := run init (drag 0 0 3.75 5 1 1000 ++ drag 0 0 1.25 0 1 2000 ++ [Undo]) in
  In [a; b] (timeline s) /\
  Measurement.pixelDistance b =
    euclidean (fst (Measurement.points b)) (snd (Measurement.points b)).
Proof.
  intros a b s.
  assert (Hreach : reachable s) by (apply reachable_run, reachable_init).
  assert (Hin : In [a; b] (timeline s))
    by (vm_compute; right; right; left; reflexivity).
  split; [exact Hin |].
  apply (stored_distance_matches_the_points s Hreach [a; b] b Hin).
  right. now left.
Defined.

(** The distance of two points does not depend on their order, so a
    drag stores the same distance in either direction. *)
Theorem distance_ignores_the_direction (s1 s2 : State) (now1 now2 : Z) (p q : Point.t)
    (Hdrag1 : isDragging s1 = true)
    (Hstart1 : dragStart s1 = Some p)
    (Hend1 : dragEnd s1 = Some q)
    (Hdrag2 : isDragging s2 = true)
    (Hstart2 : dragStart s2 = Some q)
    (Hend2 : dragEnd s2 = Some p) :
  euclidean p q = euclidean q p /\
  exists m1 m2,
    measurements (handleMouseUp now1 s1) = measurements s1 ++ [m1] /\
    measurements (handleMouseUp now2 s2) = measurements s2 ++ [m2] /\
    Measurement.pixelDistance m1 = Measurement.pixelDistance m2.
Proof.
  split; [apply euclidean_sym |].
  rewrite (handleMouseUp_commit now1 s1 p q Hdrag1 Hstart1 Hend1).
  rewrite (handleMouseUp_commit now2 s2 q p Hdrag2 Hstart2 Hend2).
  cbn [measurements].
  do 2 eexists. split; [reflexivity |]. split; [reflexivity |].
  cbn [Measurement.pixelDistance]. apply euclidean_sym.
Qed.

Lemma distance_ignores_the_direction_witness :
  let s1 := run init [MouseDown (pointer 1 2) 1; MouseMove (pointer 7.3 0.1)] in
  let s2 := run init [MouseDown (pointer 7.3 0.1) 1; MouseMove (pointer 1 2)] in
  map Measurement.pixelDistance (measurements (handleMouseUp 1000 s1)) =
  map Measurement.pixelDistance (measurements (handleMouseUp 2000 s2)).
Proof.
  intros s1 s2.
  assert (Hd1 : isDragging s1 = true) by (vm_compute; reflexivity).
  assert (Hd2 : isDragging s2 = true) by (vm_compute; reflexivity).
  assert (Hs1 : dragStart s1 = Some (normalize (pointer 1 2) 1.25 1))
    by (vm_compute; reflexivity).
  assert (He1 : dragEnd s1 = Some (normalize (pointer 7.3 0.1) 1.25 1))
    by (vm_compute; reflexivity).
  assert (Hs2 : dragStart s2 = Some (normalize (pointer 7.3 0.1) 1.25 1))
    by (vm_compute; reflexivity).
  assert (He2 : dragEnd s2 = Some (normalize (pointer 1 2) 1.25 1))
    by (vm_compute; reflexivity).
  destruct (distance_ignores_the_direction s1 s2 1000 2000 _ _ Hd1 Hs1 He1 Hd2 Hs2 He2)
    as (_ & m1 & m2 & -> & -> & Heq).
  assert (E1 : measurements s1 = []) by (vm_compute; reflexivity).
  assert (E2 : measurements s2 = []) by (vm_compute; reflexivity).
  rewrite E1, E2. cbn [app map]. now rewrite Heq.
Defined.

(** The stored distance of a reachable measurement is never negative:
    it is NaN or at least zero, and when the four coordinates of its
    points are finite it is a number of at least zero (possibly
    [Infinity], when the squares overflow). *)
Theorem stored_distance_is_not_negative (s : State) (Hreach : reachable s) :
  forall snapshot m,
    In snapshot (timeline s) -> In m snapshot ->
    (PrimFloat.is_nan (Measurement.pixelDistance m) = true \/
     (0 <=? Measurement.pixelDistance m)%float = true) /\
    (isFinite (Point.x (fst (Measurement.points m))) = true ->
     isFinite (Point.y (fst (Measurement.points m))) = true ->
     isFinite (Point.x (snd (Measurement.points m))) = true ->
     isFinite (Point.y (snd (Measurement.points m))) = true ->
     (0 <=? Measurement.pixelDistance m)%float = true).
Proof.
  apply (in_every_snapshot_timeline
           (fun m =>
              (PrimFloat.is_nan (Measurement.pixelDistance m) = true \/
               (0 <=? Measurement.pixelDistance m)%float = true) /\
              (isFinite (Point.x (fst (Measurement.points m))) = true ->
               isFinite (Point.y (fst (Measurement.points m))) = true ->
               isFinite (Point.x (snd (Measurement.points m))) = true ->
               isFinite (Point.y (snd (Measurement.points m))) = true ->
               (0 <=? Measurement.pixelDistance m)%float = true))).
  apply reachable_in_every_snapshot; [| exact Hreach].
  intros now p1 p2; cbn [Measurement.pixelDistance Measurement.points fst snd].
  split; [apply nonneg_or_nan, euclidean_sign |].
  intros Hx1 Hy1 Hx2 Hy2.
  now apply nonneg_number_leb, euclidean_is_a_number.
Qed.

Lemma stored_distance_is_not_negative_witness :
  let m := Measurement.mk 1000 (Point.mk 3 4 1, Point.mk 0 0 1) 5 in
  let s := run init (drag 3.75 5 0 0 1 1000) in
  In [m] (timeline s) /\
  (0 <=? Measurement.pixelDistance m)%float = true.
Proof.
  intros m s.
  assert (Hreach : reachable s) by (apply reachable_run, reachable_init).
  assert (Hsnap : In [m] (timeline s))
    by (vm_compute; right; left; reflexivity).
  split; [exact Hsnap |].
  destruct (stored_distance_is_not_negative s Hreach [m] m Hsnap (or_introl eq_refl))
    as (_ & Hfin).
  apply Hfin; vm_compute; reflexivity.
Defined.

(** ** The overlay *)

(** In a reachable state the overlays of the pages share out the store:
    a stored measurement is drawn on the page of its start point and on
    no other page, so none is drawn twice and none is left out. *)
Theorem every_measurement_is_drawn_on_its_page (s : State) (Hreach : reachable s)
    (m : Measurement.t) (pageNumber : Z) :
  (In m (pageMeasurements pageNumber s) <->
   In m (measurements s) /\ Point.page (fst (Measurement.points m)) = pageNumber) /\
  List.length (Svg.groups (renderOverlay pageNumber s)) =
    List.length (pageMeasurements pageNumber s) /\
  map Group.key (Svg.groups (renderOverlay pageNumber s)) =
    map Measurement.id (pageMeasurements pageNumber s).
Proof.
  destruct (reachable_store_on_one_page s Hreach) as (Hsame & _).
  split; [| split].
  - unfold pageMeasurements. rewrite filter_In. unfold onPage.
    split.
    + intros (Hin & Hon). apply andb_prop in Hon as [Hon _].
      split; [exact Hin | now apply Z.eqb_eq].
    + intros (Hin & Hpage). split; [exact Hin |].
      pose proof (proj1 (Forall_forall _ _) Hsame m Hin) as Hm.
      unfold same_page in Hm. rewrite <- Hm, Hpage, Z.eqb_refl. reflexivity.
  - cbn [renderOverlay Svg.groups]. apply length_map.
  - cbn [renderOverlay Svg.groups]. rewrite map_map. reflexivity.
Qed.

Lemma every_measurement_is_drawn_on_its_page_witness :
  let s := run init (drag 0 0 3.75 5 1 1000 ++ drag 0 0 1.25 0 2 2000) in
  map Group.key (Svg.groups (renderOverlay 2 s)) = [2000].
Proof.
  intros s.
  assert (Hreach : reachable s) by (apply reachable_run, reachable_init).
  destruct (every_measurement_is_drawn_on_its_page s Hreach
              (Measurement.mk 2000 (Point.mk 0 0 2, Point.mk 1 0 2) 1) 2)
    as (_ & _ & Hkeys).
  rewrite Hkeys. vm_compute. reflexivity.
Defined.

Lemma labelTexts_none svg :
  Forall (fun g => Group.hover g = None) (Svg.groups svg) -> labelTexts svg = [].
Proof.
  unfold labelTexts. induction 1 as [| g gs Hg _ IH]; [reflexivity |].
  cbn [flat_map]. now rewrite Hg, IH.
Qed.

Lemma renderGroup_hover s m :
  Group.hover (renderGroup s m) <> None -> hoveredId s = Some (Measurement.id m).
Proof.
  unfold renderGroup, isHovered; cbn [Group.hover].
  destruct (hoveredId s) as [h |]; [| congruence].
  destruct (Z.eqb_spec h (Measurement.id m)) as [-> | _]; congruence.
Qed.

(** Label boxes belong to the hovered id only.  With nothing hovered,
    or with a hovered id that no stored measurement has, no overlay
    shows a label; every label shown sits on a group whose key is the
    hovered id; and the label texts do not depend on the zoom. *)
Theorem labels_follow_the_hovered_id (s : State) (pageNumber : Z) :
  (hoveredId s = None -> labelTexts (renderOverlay pageNumber s) = []) /\
  (forall h, hoveredId s = Some h ->
     ~ In h (map Measurement.id (measurements s)) ->
     labelTexts (renderOverlay pageNumber s) = []) /\
  (forall g, In g (Svg.groups (renderOverlay pageNumber s)) ->
     Group.hover g <> None -> hoveredId s = Some (Group.key g)) /\
  (forall zoom,
     labelTexts (renderOverlay pageNumber (setScale zoom s)) =
     labelTexts (renderOverlay pageNumber s)).
Proof.
  assert (Hkeyed : forall g, In g (Svg.groups (renderOverlay pageNumber s)) ->
                     Group.hover g <> None ->
                     hoveredId s = Some (Group.key g) /\
                     In (Group.key g) (map Measurement.id (measurements s))).
  { intros g Hin Hhover. cbn [renderOverlay Svg.groups] in Hin.
    apply in_map_iff in Hin as (m & <- & Hm).
    split; [now apply renderGroup_hover |].
    change (Group.key (renderGroup s m)) with (Measurement.id m).
    apply in_map. unfold pageMeasurements in Hm. now apply filter_In in Hm as [Hm _]. }
  split; [| split; [| split]].
  - intros Hnone. apply labelTexts_none, Forall_forall. intros g Hin.
    destruct (Group.hover g) eqn:E; [| reflexivity].
    destruct (Hkeyed g Hin) as [Hh _]; congruence.
  - intros h Hh Hnotin. apply labelTexts_none, Forall_forall. intros g Hin.
    destruct (Group.hover g) eqn:E; [| reflexivity].
    destruct (Hkeyed g Hin) as [Hh' Hin']; [congruence |].
    rewrite Hh in Hh'. injection Hh' as ->. contradiction.
  - intros g Hin Hhover. now apply Hkeyed.
  - intros zoom. unfold labelTexts, renderOverlay, pageMeasurements; cbn [Svg.groups measurements setScale].
    rewrite !flat_map_concat_map, !map_map. f_equal.
    apply map_ext. intros m.
    unfold renderGroup, isHovered; cbn [Group.hover].
    change (hoveredId (setScale zoom s)) with (hoveredId s).
    change (scaleFactor (setScale zoom s)) with (scaleFactor s).
    clear Hkeyed.
    destruct (hoveredId s) as [h |]; [| reflexivity].
    destruct (h =? Measurement.id m); reflexivity.
Qed.

(** When the pointer enters the line of a measurement drawn on a page,
    that page's overlay shows a label box on the measurement's group,
    and its text is the measurement's label under the current
    calibration. *)
Theorem entering_a_line_shows_its_label (s : State) (pageNumber : Z) (m : Measurement.t)
    (Hdrawn : In m (pageMeasurements pageNumber s)) :
  let s' := step s (lineMouseEnter m) in
  exists box,
    In (Group.mk (Measurement.id m) (Group.line (renderGroup s m)) (Some box))
       (Svg.groups (renderOverlay pageNumber s')) /\
    HoverLabel.text box = label m (scaleFactor s) /\
    In (label m (scaleFactor s)) (labelTexts (renderOverlay pageNumber s')).
Proof.
  cbv zeta. cbn [step lineMouseEnter].
  set (s' := setHoveredId (Some (Measurement.id m)) s).
  assert (Hin : In m (pageMeasurements pageNumber s')) by exact Hdrawn.
  assert (Hg : renderGroup s' m =
               Group.mk (Measurement.id m) (Group.line (renderGroup s m))
                 (Some (HoverLabel.mk
                          (((Point.x (fst (Measurement.points m)) * scale s +
                             Point.x (snd (Measurement.points m)) * scale s) / 2) - 40)%float
                          (((Point.y (fst (Measurement.points m)) * scale s +
                             Point.y (snd (Measurement.points m)) * scale s) / 2) - 24)%float
                          ((Point.x (fst (Measurement.points m)) * scale s +
                            Point.x (snd (Measurement.points m)) * scale s) / 2)%float
                          (((Point.y (fst (Measurement.points m)) * scale s +
                             Point.y (snd (Measurement.points m)) * scale s) / 2) - 10)%float
                          (label m (scaleFactor s))))).
  { unfold renderGroup, isHovered, s'; cbn [hoveredId setHoveredId scale scaleFactor Group.line].
    now rewrite Z.eqb_refl. }
  eexists. split; [| split].
  - cbn [renderOverlay Svg.groups]. rewrite <- Hg. now apply in_map.
  - reflexivity.
  - unfold labelTexts. apply in_flat_map.
    exists (renderGroup s' m). split; [cbn [renderOverlay Svg.groups]; now apply in_map |].
    rewrite Hg; cbn [Group.hover HoverLabel.text]. now left.
Qed.

Lemma entering_a_line_shows_its_label_witness :
  let s := run init (drag 0 0 3.75 5 1 1000 ++ [SetScaleFactor (Some 0.125%float)]) in
  let m := Measurement.mk 1000 (Point.mk 0 0 1, Point.mk 3 4 1) 5 in
  In "0.63 m"%string (labelTexts (renderOverlay 1 (step s (lineMouseEnter m)))).
Proof.
  intros s m.
  assert (Hdrawn : In m (pageMeasurements 1 s)) by (vm_compute; now left).
  destruct (entering_a_line_shows_its_label s 1 m Hdrawn) as (box & _ & _ & Hin).
  assert (E : label m (scaleFactor s) = "0.63 m"%string) by (vm_compute; reflexivity).
  rewrite <- E. exact Hin.
Defined.

(** The preview line is drawn only while a drag with a recorded end
    point is active, and only on the drag's page; in a reachable state
    that is the page of the start point.  Right after a press and right
    after a release no page shows a preview. *)
Theorem preview_is_drawn_on_the_drag_page_only (s : State) (Hreach : reachable s)
    (pageNumber : Z) :
  (forall ln, renderPreview pageNumber s = Some ln ->
     isDragging s = true /\ dragPage s = Some pageNumber /\
     exists p1 p2, dragStart s = Some p1 /\ dragEnd s = Some p2 /\
                   Point.page p1 = pageNumber /\ Point.page p2 = pageNumber) /\
  (forall p1 p2, isDragging s = true -> dragStart s = Some p1 -> dragEnd s = Some p2 ->
     renderPreview (Point.page p1) s <> None) /\
  (forall e pg, renderPreview pageNumber (handleMouseDown e pg s) = None) /\
  (forall now, renderPreview pageNumber (handleMouseUp now s) = None).
Proof.
  destruct (reachable_drag_coherent s Hreach) as [Hend Hstart].
  split; [| split; [| split]].
  - intros ln Hln. unfold renderPreview in Hln.
    destruct (isDragging s) eqn:Hd; [| discriminate Hln].
    destruct (dragStart s) as [p1 |] eqn:Hs; [| discriminate Hln].
    destruct (dragEnd s) as [p2 |] eqn:He; [| discriminate Hln].
    destruct (dragPage s) as [pg |] eqn:Hp; [| discriminate Hln].
    destruct (Z.eqb_spec pg pageNumber) as [-> | _]; [| discriminate Hln].
    specialize (Hstart p1 eq_refl). injection Hstart as Hp1.
    destruct (Hend p2 eq_refl) as (_ & p & Hp' & Hpage).
    injection Hp' as <-.
    split; [reflexivity |]. split; [reflexivity |].
    exists p1, p2. repeat (split; [reflexivity |]). split; congruence.
  - intros p1 p2 Hd Hs He. unfold renderPreview.
    rewrite Hd, Hs, He, (Hstart p1 Hs), Z.eqb_refl. discriminate.
  - intros e pg. reflexivity.
  - intros now. unfold renderPreview.
    now rewrite isDragging_handleMouseUp.
Qed.

Lemma preview_is_drawn_on_the_drag_page_only_witness :
  let s := run init [MouseDown (pointer 0 0) 2; MouseMove (pointer 3.75 5)] in
  renderPreview 2 s = Some (Line.mk 0 0 3.75 5) /\
  renderPreview 1 s = None /\
  renderPreview (Point.page (Point.mk 0 0 2)) s <> None.
Proof.
  intros s.
  assert (Hreach : reachable s) by (apply reachable_run, reachable_init).
  destruct (preview_is_drawn_on_the_drag_page_only s Hreach 2) as (_ & Hshown & _).
  split; [vm_compute; reflexivity |].
  split; [vm_compute; reflexivity |].
  apply (Hshown (Point.mk 0 0 2) (Point.mk 3 4 2)); vm_compute; reflexivity.
Defined.

(** ** Ids come from the clock *)

Lemma ids_from_releases_run trace :
  forall used s,
    in_every_snapshot (fun m => In (Measurement.id m) used) s ->
    in_every_snapshot (fun m => In (Measurement.id m) (used ++ release_times trace))
                      (run s trace).
Proof.
  induction trace as [| ev trace IH]; intros used s Hinv.
  - cbn [release_times flat_map]. now rewrite app_nil_r.
  - rewrite release_times_cons, app_assoc. cbn [run fold_left].
    apply IH.
    apply (in_every_snapshot_step (fun m => In (Measurement.id m) used)); [| | exact Hinv].
    + intros m Hm. apply in_or_app. now left.
    + intros now p1 p2 ->. apply in_or_app. right. now left.
Qed.

(** Every id stored during a session, in the store or in a snapshot, is
    the clock reading of one of the session's releases; a session
    without a release stores nothing. *)
Theorem ids_are_clock_readings (trace : list Event) :
  (forall snapshot m,
     In snapshot (timeline (run init trace)) -> In m snapshot ->
     In (Measurement.id m) (release_times trace)) /\
  (release_times trace = [] -> measurements (run init trace) = []).
Proof.
  assert (Hall : forall snapshot m,
            In snapshot (timeline (run init trace)) -> In m snapshot ->
            In (Measurement.id m) (release_times trace)).
  { apply (in_every_snapshot_timeline
             (fun m => In (Measurement.id m) (release_times trace))).
    apply (ids_from_releases_run trace [] init).
    split; [constructor | split; constructor]. }
  split; [exact Hall |].
  intros Hnone.
  destruct (measurements (run init trace)) as [| m rest] eqn:E; [reflexivity |].
  exfalso.
  assert (Hsnap : In (m :: rest) (timeline (run init trace))).
  { unfold timeline. rewrite E. apply in_or_app. right. now left. }
  specialize (Hall (m :: rest) m Hsnap (or_introl eq_refl)).
  rewrite Hnone in Hall. exact Hall.
Qed.

(** ** The file label *)

Lemma append_assoc (a b c : string) : ((a ++ b) ++ c = a ++ (b ++ c))%string.
Proof. induction a as [| x a IH]; cbn; [reflexivity | now rewrite IH]. Qed.

Lemma contains_append c (a b : string) :
  contains c (a ++ b) = contains c a || contains c b.
Proof.
  induction a as [| x a IH]; cbn; [reflexivity |].
  now rewrite IH, orb_assoc.
Qed.

Lemma split_nonempty sep str : split sep str <> [].
Proof.
  destruct str as [| c rest]; cbn; [discriminate |].
  destruct (Ascii.eqb c sep); [discriminate |].
  destruct (split sep rest); discriminate.
Qed.

(** Joining the pieces with the separator gives the string back. *)
Lemma concat_split sep str :
  String.concat (String sep EmptyString) (split sep str) = str.
Proof.
  induction str as [| c rest IH]; [reflexivity |].
  cbn [split].
  destruct (Ascii.eqb_spec c sep) as [-> | Hne].
  - pose proof (split_nonempty sep rest) as Hrest.
    destruct (split sep rest) as [| x xs]; [congruence |].
    cbn [String.concat append] in *. now rewrite IH.
  - destruct (split sep rest) as [| x xs] eqn:E; [now apply split_nonempty in E |].
    destruct xs as [| y ys]; cbn [String.concat append] in *; now rewrite IH.
Qed.

Lemma split_segments_clean sep str :
  Forall (fun segment => contains sep segment = false) (split sep str).
Proof.
  induction str as [| c rest IH]; [repeat constructor |].
  cbn [split].
  destruct (Ascii.eqb_spec c sep) as [-> | Hne]; [constructor; [reflexivity | exact IH] |].
  destruct (split sep rest) as [| x xs]; [repeat constructor; cbn |].
  - destruct (Ascii.eqb_spec c sep); [congruence | reflexivity].
  - inversion IH as [| ? ? Hx Hxs]; subst. constructor; [| exact Hxs].
    cbn. rewrite Hx. destruct (Ascii.eqb_spec c sep); [congruence | reflexivity].
Qed.

Lemma concat_snoc sep segments x :
  segments <> [] ->
  String.concat sep (segments ++ [x]) =
  (String.concat sep segments ++ sep ++ x)%string.
Proof.
  induction segments as [| a segments IH]; [congruence |]; intros _.
  destruct segments as [| b segments]; [reflexivity |].
  change ((a :: b :: segments) ++ [x]) with (a :: (b :: segments) ++ [x]).
  change (String.concat sep (a :: (b :: segments) ++ [x]))
    with (a ++ sep ++ String.concat sep ((b :: segments) ++ [x]))%string.
  rewrite IH by discriminate.
  change (String.concat sep (a :: b :: segments))
    with (a ++ sep ++ String.concat sep (b :: segments))%string.
  now rewrite !append_assoc.
Qed.

Lemma pop_snoc segments x : pop (segments ++ [x]) = Some x.
Proof.
  unfold pop. rewrite length_app, Nat.add_1_r.
  replace (S (List.length segments) - 1)%nat with (List.length segments) by lia.
  now rewrite nth_error_app2, Nat.sub_diag by lia.
Qed.

(** For a file given by its path the label is the part of the path
    after its last slash: it contains no slash, the path is the label
    itself or a directory part, a slash and the label, and a path
    without a slash is shown whole.  Splitting at the slashes loses
    nothing: joining the pieces gives the path back. *)
Theorem file_label_is_the_last_path_segment (url : string) :
  let name := fileLabel (Some (Path url)) in
  contains "/" name = false /\
  (url = name \/ exists dir, url = (dir ++ "/" ++ name)%string) /\
  (contains "/" url = false -> name = url) /\
  String.concat "/" (split "/" url) = url.
Proof.
  cbv zeta. cbn [fileLabel].
  pose proof (concat_split "/" url) as Hjoin.
  pose proof (split_segments_clean "/" url) as Hclean.
  destruct (snoc_cases (split "/" url)) as [Hnil | (segments & name & Hsplit)];
    [now apply split_nonempty in Hnil |].
  rewrite Hsplit in *. rewrite pop_snoc.
  apply Forall_app in Hclean as [_ Hname].
  apply Forall_inv in Hname. rename Hname into Hname'.
  assert (Hshape : url = name \/ exists dir, url = (dir ++ "/" ++ name)%string).
  { destruct segments as [| a segments]; [left; now rewrite <- Hjoin |].
    right. rewrite concat_snoc in Hjoin by discriminate.
    eexists. symmetry. exact Hjoin. }
  split; [exact Hname' |].
  split; [exact Hshape |].
  split; [| exact Hjoin].
  intros Hnoslash. destruct Hshape as [-> | (dir & ->)]; [reflexivity |].
  rewrite !contains_append in Hnoslash. cbn in Hnoslash.
  rewrite orb_true_r in Hnoslash. discriminate.
Qed.

(** ** The page width *)

Lemma SFltb_SFleb x y : SFltb x y = true -> SFleb x y = true.
Proof. unfold SFltb, SFleb. destruct (SFcompare x y) as [[] |]; congruence. Qed.

Lemma SFcompare_Eq_finite x s m e :
  SFcompare x (S754_finite s m e) = Some Eq -> x = S754_finite s m e.
Proof.
  destruct x as [sx | sx | | sx mx ex]; cbn [SFcompare]; intros H.
  - destruct s; discriminate H.
  - destruct sx; discriminate H.
  - discriminate H.
  - destruct sx, s; try discriminate H;
      destruct (ex ?= e) eqn:He; try discriminate H;
      apply Z.compare_eq in He; subst ex.
    + assert (Hc : CompOpp (Pos.compare_cont Eq mx m) = Eq) by congruence.
      apply (f_equal CompOpp) in Hc. rewrite CompOpp_involutive in Hc. cbn in Hc.
      apply Pos.compare_eq in Hc. now subst.
    + assert (Hc : Pos.compare_cont Eq mx m = Eq) by congruence.
      apply Pos.compare_eq in Hc. now subst.
Qed.

(** The page is rendered at the container's width but never wider than
    [maxWidth]: the width passed on is at most 800, is never NaN and
    never zero (an unknown or zero container width gives 800), and a
    known non-zero container width of at most 800 is passed on as it
    is. *)
Theorem page_width_is_capped (containerWidth : option float) :
  (pageWidth containerWidth <=? maxWidth)%float = true /\
  PrimFloat.is_nan (pageWidth containerWidth) = false /\
  (pageWidth containerWidth =? 0)%float = false /\
  (forall width,
     containerWidth = Some width -> truthy width = true ->
     (width <=? maxWidth)%float = true ->
     pageWidth containerWidth = width) /\
  (containerWidth = None \/ containerWidth = Some 0%float ->
     pageWidth containerWidth = maxWidth).
Proof.
  assert (Hmax : (maxWidth <=? maxWidth)%float = true /\
                 PrimFloat.is_nan maxWidth = false /\
                 (maxWidth =? 0)%float = false) by (repeat split; reflexivity).
  destruct Hmax as (Hmax1 & Hmax2 & Hmax3).
  destruct containerWidth as [w |]; cbn [pageWidth];
    [| repeat (split; [assumption |]);
       split; [intros width E; discriminate E | intros _; reflexivity]].
  destruct (truthy w) eqn:Ht.
  2:{ repeat (split; [assumption |]).
      split; [| intros _; reflexivity].
      intros width E Hw. injection E as <-. rewrite Ht in Hw. discriminate Hw. }
  unfold truthy in Ht. apply negb_true_iff, orb_false_iff in Ht as [Hzero Hnan].
  unfold mathMin. rewrite Hnan, Hmax2. cbn [orb].
  destruct (w <? maxWidth)%float eqn:Hlt.
  - split; [rewrite leb_spec; apply SFltb_SFleb; now rewrite <- ltb_spec |].
    split; [exact Hnan |]. split; [exact Hzero |].
    split; [intros width E _ _; now injection E as <- |].
    intros [E | E]; [discriminate E |]. injection E as ->. discriminate Hzero.
  - destruct (maxWidth <? w)%float eqn:Hgt.
    + repeat (split; [assumption |]).
      split.
      * intros width E _ Hle. injection E as <-.
        rewrite leb_spec in Hle. rewrite ltb_spec in Hlt, Hgt.
        unfold SFleb in Hle. unfold SFltb in Hlt.
        destruct (SFcompare (Prim2SF w) (Prim2SF maxWidth)) as [[] |] eqn:Hc;
          try discriminate.
        apply SFcompare_Eq_finite in Hc. rewrite Hc in Hgt. discriminate Hgt.
      * intros [E | E]; [discriminate E |]. injection E as ->. discriminate Hzero.
    + assert (Hneg : Prim2SF w <> S754_zero true).
      { intros E. rewrite eqb_spec, E in Hzero. discriminate Hzero. }
      assert (Hres : match Prim2SF w with S754_zero true => w | _ => maxWidth end = maxWidth).
      { destruct (Prim2SF w) as [[] | | |]; congruence. }
      rewrite Hres.
      repeat (split; [assumption |]).
      split.
      * intros width E _ Hle. injection E as <-.
        rewrite leb_spec in Hle. rewrite ltb_spec in Hlt.
        unfold SFleb in Hle. unfold SFltb in Hlt.
        destruct (SFcompare (Prim2SF w) (Prim2SF maxWidth)) as [[] |] eqn:Hc;
          try discriminate.
        apply SFcompare_Eq_finite in Hc. symmetry. now apply Prim2SF_inj.
      * reflexivity.
Qed.

Lemma page_width_is_capped_witness :
  pageWidth (onResize [640.5%float] None) = 640.5%float /\
  pageWidth (onResize [1280%float] None) = 800%float /\
  pageWidth (onResize [] None) = 800%float.
Proof.
  destruct (page_width_is_capped (onResize [640.5%float] None)) as (_ & _ & _ & Hkeep & _).
  split; [apply Hkeep; reflexivity |].
  split; reflexivity.
Defined.

Example fileLabel_of_the_first_render :
  fileLabel (file init) = "Level1 Floor Plan - Hydronic.pdf"%string.
Proof. reflexivity. Qed.

(** * Handlers as closures of a render *)

(** ** The handlers on one state are the closures applied to their own render *)

Lemma stepFrom_same s ev : stepFrom s ev s = step s ev.
Proof. destruct ev; reflexivity. Qed.

(** One event with a render after it is one [step]. *)
Lemma flush_deliver_step s ev :
  flush (deliver (mkView s s) ev) = mkView (step s ev) (step s ev).
Proof. unfold flush, deliver; cbn [rendered pending]. now rewrite stepFrom_same. Qed.

Lemma rendered_deliver v ev :
  rendered (deliver v ev) = if deferred ev then rendered v else step (rendered v) ev.
Proof. unfold deliver; cbn [rendered]. now rewrite stepFrom_same. Qed.

Lemma play_snoc v schedule t : play v (schedule ++ [t]) = tick (play v schedule) t.
Proof. unfold play. now rewrite fold_left_app. Qed.

Lemma lastPress_snoc schedule t :
  lastPress (schedule ++ [t]) =
  match t with
  | Deliver (MouseDown _ pageNumber) => Some pageNumber
  | _ => lastPress schedule
  end.
Proof. unfold lastPress. now rewrite fold_left_app. Qed.

(** ** The closures case by case *)

Lemma handleUndoFrom_nil c b : history c = [] -> handleUndoFrom c b = b.
Proof. intros H. unfold handleUndoFrom. now rewrite H. Qed.

Lemma handleUndoFrom_snoc c b h prev :
  history c = h ++ [prev] ->
  handleUndoFrom c b =
  b |> setRedoStackWith (fun r => measurements c :: r)
    |> setMeasurements prev
    |> setHistoryWith (fun h0 => firstn (List.length h0 - 1) h0).
Proof.
  intros H. unfold handleUndoFrom. rewrite H.
  rewrite length_app, Nat.add_1_r; cbn [Nat.eqb].
  replace (S (List.length h) - 1)%nat with (List.length h) by lia.
  now rewrite nth_error_app2, Nat.sub_diag by lia.
Qed.

Lemma handleRedoFrom_nil c b : redoStack c = [] -> handleRedoFrom c b = b.
Proof. intros H. unfold handleRedoFrom. now rewrite H. Qed.

Lemma handleRedoFrom_cons c b next r :
  redoStack c = next :: r ->
  handleRedoFrom c b =
  b |> setMeasurements next
    |> setHistoryWith (fun h => h ++ [measurements c])
    |> setRedoStackWith (fun r0 => skipn 1 r0).
Proof. intros H. unfold handleRedoFrom. now rewrite H. Qed.

Lemma handleMouseUpFrom_abort c now b :
  isDragging c = false \/ dragStart c = None \/ dragEnd c = None ->
  handleMouseUpFrom c now b = setIsDragging false b.
Proof.
  intros H. unfold handleMouseUpFrom.
  destruct (isDragging c); [| reflexivity].
  destruct (dragStart c); [| reflexivity].
  destruct (dragEnd c); [| reflexivity].
  destruct H as [H | [H | H]]; discriminate H.
Qed.

Lemma handleMouseUpFrom_commit c now b p1 p2 :
  isDragging c = true -> dragStart c = Some p1 -> dragEnd c = Some p2 ->
  handleMouseUpFrom c now b =
  mkState (file b) (numPages b) (scale b) (scaleFactor b)
    (measurements c ++ [Measurement.mk now (p1, p2) (euclidean p1 p2)])
    (history b ++ [measurements c]) [] (hoveredId b) false None None None.
Proof. intros Hd Hs He. unfold handleMouseUpFrom. now rewrite Hd, Hs, He. Qed.

Lemma release_cases c :
  (isDragging c = false \/ dragStart c = None \/ dragEnd c = None) \/
  (exists p1 p2, isDragging c = true /\ dragStart c = Some p1 /\ dragEnd c = Some p2).
Proof.
  destruct (isDragging c); [| now left; left].
  destruct (dragStart c) as [p1 |]; [| now left; right; left].
  destruct (dragEnd c) as [p2 |]; [| now left; right; right].
  right. now exists p1, p2.
Qed.

(** ** What every schedule preserves *)

Lemma settled_deliver v ev : settled v -> settled (deliver v ev).
Proof.
  destruct v as [r p]. unfold settled; cbn [rendered pending].
  intros (Hf & Hz & Hk & Hm & Hh & Hr & Hd & Hs & Hp).
  unfold deliver; cbn [rendered pending].
  destruct ev as [nf | np | e pg | e | now | | | zoom | factor | hovered];
    cbn [deferred stepFrom].
  - (* FileChange *) cbn. repeat split; assumption.
  - (* DocumentLoadSuccess *) cbn. repeat split; assumption.
  - (* MouseDown *) cbn. repeat split; assumption.
  - (* MouseMove *)
    unfold handleMouseMoveFrom. abort_cases r; cbn; repeat split; assumption.
  - (* MouseUp *)
    destruct (release_cases r) as [Habort | (p1 & p2 & Hd' & Hs' & He')].
    + rewrite !(handleMouseUpFrom_abort r now _ Habort). cbn. repeat split; assumption.
    + rewrite !(handleMouseUpFrom_commit r now _ p1 p2 Hd' Hs' He'). cbn.
      rewrite Hf, Hz, Hk, Hh. repeat split.
  - (* Undo *)
    destruct (snoc_cases (history r)) as [Hnil | (h & prev & Hsnoc)].
    + rewrite !(handleUndoFrom_nil r _ Hnil). repeat split; assumption.
    + rewrite !(handleUndoFrom_snoc r _ h prev Hsnoc). cbn.
      rewrite Hh, Hr. repeat split; assumption.
  - (* Redo *)
    destruct (redoStack r) as [| next rest] eqn:Hredo.
    + rewrite !(handleRedoFrom_nil r _ Hredo), ?Hredo. repeat split; assumption.
    + rewrite !(handleRedoFrom_cons r _ next rest Hredo). cbn.
      rewrite Hh, Hr, Hredo. repeat split; assumption.
  - cbn. repeat split; assumption.
  - cbn. repeat split; assumption.
  - cbn. repeat split; assumption.
Qed.

Lemma drag_fields_kept c ev b :
  match ev with MouseDown _ _ | MouseMove _ | MouseUp _ => False | _ => True end ->
  dragStart (stepFrom c ev b) = dragStart b /\
  dragEnd (stepFrom c ev b) = dragEnd b /\
  dragPage (stepFrom c ev b) = dragPage b.
Proof.
  destruct ev as [nf | np | e pg | e | now | | | zoom | factor | hovered];
    intros H; try contradiction H; cbn [stepFrom]; try (cbn; tauto).
  - destruct (snoc_cases (history c)) as [Hnil | (h & prev & Hsnoc)].
    + rewrite (handleUndoFrom_nil c b Hnil). tauto.
    + rewrite (handleUndoFrom_snoc c b h prev Hsnoc). cbn. tauto.
  - destruct (redoStack c) as [| next rest] eqn:Hredo.
    + rewrite (handleRedoFrom_nil c b Hredo). tauto.
    + rewrite (handleRedoFrom_cons c b next rest Hredo). cbn. tauto.
Qed.

Lemma on_the_drag_page_deliver v ev :
  on_the_drag_page v -> on_the_drag_page (deliver v ev).
Proof.
  destruct v as [r p]. unfold on_the_drag_page, deliver; cbn [rendered pending].
  intros (Hstart & Hend & Hqueued).
  destruct ev as [nf | np | e pg | e | now | | | zoom | factor | hovered].
  3:{ (* MouseDown *)
      cbn. split; [| split].
      - intros q Hq. now injection Hq as <-.
      - intros q Hq. discriminate Hq.
      - intros q Hq. discriminate Hq. }
  3:{ (* MouseMove *)
      cbn [deferred stepFrom]. split; [exact Hstart |]. split; [exact Hend |].
      unfold handleMouseMoveFrom.
      destruct (isDragging r); [| exact Hqueued].
      destruct (dragStart r) as [p0 |] eqn:Hs; [| exact Hqueued].
      destruct (dragPage r) as [pg |] eqn:Hp; [| exact Hqueued].
      cbn. intros q Hq. injection Hq as <-.
      exists p0. split; [reflexivity |].
      specialize (Hstart p0 eq_refl). cbn. congruence. }
  3:{ (* MouseUp *)
      cbn [deferred stepFrom].
      destruct (release_cases r) as [Habort | (p1 & p2 & Hd' & Hs' & He')].
      - rewrite !(handleMouseUpFrom_abort r now _ Habort). cbn.
        split; [exact Hstart |]. split; [exact Hend | exact Hqueued].
      - rewrite !(handleMouseUpFrom_commit r now _ p1 p2 Hd' Hs' He'). cbn.
        split; [| split]; intros q Hq; discriminate Hq. }
  all: cbn [deferred];
    try (destruct (drag_fields_kept r (FileChange nf) r I) as (-> & -> & ->);
         destruct (drag_fields_kept r (FileChange nf) p I) as (_ & -> & _));
    try (destruct (drag_fields_kept r (DocumentLoadSuccess np) p I) as (_ & -> & _));
    try (destruct (drag_fields_kept r Undo r I) as (-> & -> & ->);
         destruct (drag_fields_kept r Undo p I) as (_ & -> & _));
    try (destruct (drag_fields_kept r Redo r I) as (-> & -> & ->);
         destruct (drag_fields_kept r Redo p I) as (_ & -> & _));
    try (destruct (drag_fields_kept r (SetScale zoom) r I) as (-> & -> & ->);
         destruct (drag_fields_kept r (SetScale zoom) p I) as (_ & -> & _));
    try (destruct (drag_fields_kept r (SetScaleFactor factor) r I) as (-> & -> & ->);
         destruct (drag_fields_kept r (SetScaleFactor factor) p I) as (_ & -> & _));
    try (destruct (drag_fields_kept r (SetHoveredId hovered) p I) as (_ & -> & _));
    (split; [exact Hstart |]; split; [exact Hend | exact Hqueued]).
Qed.

(** The same-page property of the store needs only that the two points
    a release reads are on one page. *)
Lemma store_on_one_page_step_pages s ev :
  (forall p q, dragStart s = Some p -> dragEnd s = Some q ->
     Point.page q = Point.page p) ->
  store_on_one_page s -> store_on_one_page (step s ev).
Proof.
  intros Hpages Hstore.
  event_cases ev; try exact Hstore.
  - repeat split; constructor.
  - unfold handleMouseMove. abort_cases s; exact Hstore.
  - destruct Hstore as (Hm & Hh & Hr).
    destruct (isDragging s) eqn:Hd;
      [| unfold handleMouseUp; rewrite Hd; exact (conj Hm (conj Hh Hr))].
    destruct (dragStart s) as [p1 |] eqn:Hs;
      [| unfold handleMouseUp; rewrite Hd, Hs; exact (conj Hm (conj Hh Hr))].
    destruct (dragEnd s) as [p2 |] eqn:He;
      [| unfold handleMouseUp; rewrite Hd, Hs, He; exact (conj Hm (conj Hh Hr))].
    rewrite (handleMouseUp_commit now s p1 p2 Hd Hs He).
    unfold store_on_one_page; cbn [measurements history redoStack].
    split; [| split].
    + apply Forall_app; split; [exact Hm |].
      constructor; [| constructor].
      unfold same_page; cbn. symmetry. now apply Hpages.
    + apply Forall_app; split; [exact Hh |].
      constructor; [exact Hm | constructor].
    + constructor.
  - destruct s as [f n z k m h r hov d ds de dp].
    destruct Hstore as (Hm & Hh & Hr); cbn [measurements history redoStack] in *.
    destruct (snoc_cases h) as [-> | (h' & prev & ->)]; [exact (conj Hm (conj Hh Hr)) |].
    rewrite handleUndo_snoc.
    apply Forall_app in Hh as [Hh' Hprev].
    unfold store_on_one_page; cbn [measurements history redoStack].
    split; [now inversion Hprev | split; [exact Hh' | now constructor]].
  - destruct s as [f n z k m h r hov d ds de dp].
    destruct Hstore as (Hm & Hh & Hr); cbn [measurements history redoStack] in *.
    destruct r as [| next r]; [exact (conj Hm (conj Hh Hr)) |].
    rewrite handleRedo_cons.
    unfold store_on_one_page; cbn [measurements history redoStack].
    split; [now inversion Hr | split; [| now inversion Hr]].
    apply Forall_app; split; [exact Hh | now constructor].
Qed.

Lemma view_invariant_tick v t : view_invariant v -> view_invariant (tick v t).
Proof.
  intros (Hset & Hpage & Hstore).
  destruct t as [ev |]; cbn [tick].
  - split; [now apply settled_deliver |].
    split; [now apply on_the_drag_page_deliver |].
    rewrite rendered_deliver.
    destruct (deferred ev); [exact Hstore |].
    apply store_on_one_page_step_pages; [| exact Hstore].
    destruct Hpage as (_ & Hend & _).
    intros p q Hp Hq. destruct (Hend q Hq) as (p' & Hp' & Hpg). congruence.
  - destruct v as [r p]. 
    destruct Hset as (Hf & Hz & Hk & Hm & Hh & Hr & Hd & Hs & Hp).
    destruct Hpage as (Hstart & Hend & Hqueued).
    cbn [rendered pending] in *.
    split; [repeat split |].
    split.
    + unfold on_the_drag_page, flush; cbn [rendered pending].
      rewrite Hs, Hp. split; [exact Hstart |]. split; exact Hqueued.
    + unfold store_on_one_page, flush; cbn [rendered pending].
      rewrite Hm, Hh, Hr. exact Hstore.
Qed.

Lemma view_invariant_first : view_invariant firstRender.
Proof.
  split; [repeat split |].
  split; [| repeat split; constructor].
  split; [| split]; cbn; intros ? H; discriminate H.
Qed.

Lemma view_invariant_play schedule : view_invariant (play firstRender schedule).
Proof.
  induction schedule as [| t schedule IH] using rev_ind;
    [apply view_invariant_first |].
  rewrite play_snoc. now apply view_invariant_tick.
Qed.

(** The start point on screen is on the page of the most recent press. *)
Lemma dragStart_lastPress schedule :
  forall p, dragStart (rendered (play firstRender schedule)) = Some p ->
            lastPress schedule = Some (Point.page p).
Proof.
  induction schedule as [| t schedule IH] using rev_ind;
    [intros p H; discriminate H |].
  rewrite play_snoc, lastPress_snoc.
  pose proof (view_invariant_play schedule) as (Hset & _ & _).
  set (v := play firstRender schedule) in *.
  destruct t as [ev |]; cbn [tick].
  - rewrite rendered_deliver.
    destruct ev as [nf | np | e pg | e | now | | | zoom | factor | hovered];
      cbn [deferred].
    + exact IH.
    + exact IH.
    + cbn. intros p Hp. now injection Hp as <-.
    + exact IH.
    + intros p.
      destruct (release_cases (rendered v)) as [Habort | (p1 & p2 & Hd' & Hs' & He')].
      * rewrite <- (stepFrom_same _ (MouseUp now)). cbn [stepFrom].
        rewrite (handleMouseUpFrom_abort _ now _ Habort). cbn. apply IH.
      * cbn [step]. rewrite (handleMouseUp_commit now _ p1 p2 Hd' Hs' He'). cbn. discriminate.
    + intros p. rewrite <- stepFrom_same.
      destruct (drag_fields_kept (rendered v) Undo (rendered v) I) as (-> & _).
      apply IH.
    + intros p. rewrite <- stepFrom_same.
      destruct (drag_fields_kept (rendered v) Redo (rendered v) I) as (-> & _).
      apply IH.
    + exact IH.
    + exact IH.
    + exact IH.
  - cbn [flush rendered].
    destruct Hset as (_ & _ & _ & _ & _ & _ & _ & Hs & _).
    rewrite Hs. apply IH.
Qed.

(** ** Division by a zero or a negated divisor *)

Lemma SF64div_zero_divisor x s :
  match SF64div x (S754_zero s) with
  | S754_infinity _ | S754_nan => True
  | _ => False
  end.
Proof. destruct x as [[] | [] | | [] m e]; exact I. Qed.

Lemma float_eqb_zero z : (z =? 0)%float = true -> exists s, Prim2SF z = S754_zero s.
Proof.
  rewrite eqb_spec. change (Prim2SF 0) with (S754_zero false).
  destruct (Prim2SF z) as [s | s | | s m e] eqn:E;
    [intros _; now exists s | | |]; cbn; try destruct s; discriminate.
Qed.

Lemma float_div_zero a z : (z =? 0)%float = true -> isFinite (a / z) = false.
Proof.
  intros Hz. destruct (float_eqb_zero z Hz) as (s & Hs).
  unfold isFinite. rewrite div_spec, Hs.
  pose proof (SF64div_zero_divisor (Prim2SF a) s) as H.
  destruct (SF64div (Prim2SF a) (S754_zero s)); try contradiction H; reflexivity.
Qed.

Lemma SF64div_opp_r x y : SF64div x (SFopp y) = SFopp (SF64div x y).
Proof.
  destruct x as [sx | sx | | sx mx ex], y as [sy | sy | | sy my ey];
    cbn [SFopp SF64div SFdiv]; try reflexivity;
    try (now destruct sx, sy).
  destruct (SFdiv_core_binary prec emax (Z.pos mx) ex (Z.pos my) ey) as [[mz ez] lz].
  rewrite <- binary_round_aux_opp. now destruct sx, sy.
Qed.

Lemma float_div_opp_r a z : (a / (- z))%float = (- (a / z))%float.
Proof.
  apply Prim2SF_inj. rewrite opp_spec, !div_spec, opp_spec. apply SF64div_opp_r.
Qed.

(** ** Distances between points that are not finite *)

Lemma SF64sub_not_finite_l x y : ~ finite_sf x -> ~ finite_sf (SF64sub x y).
Proof.
  destruct x as [sx | sx | | sx mx ex]; cbn [finite_sf]; try tauto; intros _;
    destruct y as [sy | sy | | sy my ey]; cbn; try tauto.
  destruct sx, sy; cbn; tauto.
Qed.

Lemma SF64sub_not_finite_r x y : ~ finite_sf y -> ~ finite_sf (SF64sub x y).
Proof.
  destruct y as [sy | sy | | sy my ey]; cbn [finite_sf]; try tauto; intros _;
    destruct x as [sx | sx | | sx mx ex]; cbn; try tauto.
  destruct sx, sy; cbn; tauto.
Qed.

Lemma SF64mul_self_not_finite x : ~ finite_sf x -> ~ finite_sf (SF64mul x x).
Proof. destruct x as [sx | sx | | sx mx ex]; cbn; tauto. Qed.

Lemma SF64add_not_finite_l x y : ~ finite_sf x -> ~ finite_sf (SF64add x y).
Proof.
  destruct x as [sx | sx | | sx mx ex]; cbn [finite_sf]; try tauto; intros _;
    destruct y as [sy | sy | | sy my ey]; cbn; try tauto.
  destruct sx, sy; cbn; tauto.
Qed.

Lemma SF64add_not_finite_r x y : ~ finite_sf y -> ~ finite_sf (SF64add x y).
Proof.
  destruct y as [sy | sy | | sy my ey]; cbn [finite_sf]; try tauto; intros _;
    destruct x as [sx | sx | | sx mx ex]; cbn; try tauto.
  destruct sx, sy; cbn; tauto.
Qed.

Lemma SF64sqrt_not_finite x : ~ finite_sf x -> ~ finite_sf (SF64sqrt x).
Proof. destruct x as [sx | [] | | sx mx ex]; cbn; tauto. Qed.

Lemma isFinite_false v : isFinite v = false <-> ~ finite_sf (Prim2SF v).
Proof. unfold isFinite. destruct (Prim2SF v); cbn; split; (tauto || congruence || easy). Qed.

(** A point with a coordinate that is not finite is at no finite
    distance from any point. *)
Lemma euclidean_not_finite p1 p2 :
  isFinite (Point.x p1) = false \/ isFinite (Point.y p1) = false \/
  isFinite (Point.x p2) = false \/ isFinite (Point.y p2) = false ->
  isFinite (euclidean p1 p2) = false.
Proof.
  rewrite !isFinite_false. unfold euclidean, sq; cbv zeta.
  rewrite sqrt_spec, add_spec, !mul_spec, !sub_spec.
  intros [H | [H | [H | H]]]; apply SF64sqrt_not_finite.
  - apply SF64add_not_finite_l, SF64mul_self_not_finite, SF64sub_not_finite_r, H.
  - apply SF64add_not_finite_r, SF64mul_self_not_finite, SF64sub_not_finite_r, H.
  - apply SF64add_not_finite_l, SF64mul_self_not_finite, SF64sub_not_finite_l, H.
  - apply SF64add_not_finite_r, SF64mul_self_not_finite, SF64sub_not_finite_l, H.
Qed.

(** ** Measurements and the page of the press *)

Lemma lastPress_pressed schedule pageNumber :
  lastPress schedule = Some pageNumber -> pressed schedule pageNumber.
Proof.
  induction schedule as [| t schedule IH] using rev_ind; [discriminate |].
  rewrite lastPress_snoc. intros H.
  assert (Hold : lastPress schedule = Some pageNumber -> pressed (schedule ++ [t]) pageNumber).
  { intros Hl. destruct (IH Hl) as (e & He). exists e. apply in_or_app. now left. }
  destruct t as [[nf | np | e pg | e | now | | | zoom | factor | hovered] |];
    try (now apply Hold).
  injection H as ->. exists e. apply in_or_app. right. now left.
Qed.

Lemma in_every_snapshot_impl (P Q : Measurement.t -> Prop) s :
  (forall m, P m -> Q m) -> in_every_snapshot P s -> in_every_snapshot Q s.
Proof.
  intros Hweak (Hm & Hh & Hr).
  split; [| split].
  - eapply Forall_impl; [exact Hweak | exact Hm].
  - eapply Forall_impl; [| exact Hh].
    intros snapshot Hs. eapply Forall_impl; [exact Hweak | exact Hs].
  - eapply Forall_impl; [| exact Hr].
    intros snapshot Hs. eapply Forall_impl; [exact Hweak | exact Hs].
Qed.

(** One step keeps a property of every stored measurement when the
    measurement a release makes of the drag it reads has it. *)
Lemma in_every_snapshot_commit (P : Measurement.t -> Prop) s ev :
  (forall now p1 p2,
     ev = MouseUp now ->
     isDragging s = true -> dragStart s = Some p1 -> dragEnd s = Some p2 ->
     P (Measurement.mk now (p1, p2) (euclidean p1 p2))) ->
  in_every_snapshot P s -> in_every_snapshot P (step s ev).
Proof.
  intros Hcommit Hinv.
  event_cases ev; try exact Hinv.
  - split; [constructor | split; constructor].
  - unfold handleMouseMove. abort_cases s; exact Hinv.
  - destruct (isDragging s) eqn:Hd; [| unfold handleMouseUp; rewrite Hd; exact Hinv].
    destruct (dragStart s) as [p1 |] eqn:Hs;
      [| unfold handleMouseUp; rewrite Hd, Hs; exact Hinv].
    destruct (dragEnd s) as [p2 |] eqn:He;
      [| unfold handleMouseUp; rewrite Hd, Hs, He; exact Hinv].
    rewrite (handleMouseUp_commit now s p1 p2 Hd Hs He).
    destruct Hinv as (Hm & Hh & _).
    unfold in_every_snapshot; cbn [measurements history redoStack].
    split; [| split; [| constructor]].
    + apply Forall_app; split; [exact Hm |].
      constructor; [now apply Hcommit | constructor].
    + apply Forall_app; split; [exact Hh | now constructor].
  - destruct s as [f n z k m h r hov d ds de dp].
    destruct Hinv as (Hm & Hh & Hr); cbn [measurements history redoStack] in *.
    destruct (snoc_cases h) as [-> | (h' & prev & ->)];
      [exact (conj Hm (conj Hh Hr)) |].
    rewrite handleUndo_snoc.
    apply Forall_app in Hh as [Hh' Hprev].
    unfold in_every_snapshot; cbn [measurements history redoStack].
    split; [now inversion Hprev | split; [exact Hh' | now constructor]].
  - destruct s as [f n z k m h r hov d ds de dp].
    destruct Hinv as (Hm & Hh & Hr); cbn [measurements history redoStack] in *.
    destruct r as [| next r]; [exact (conj Hm (conj Hh Hr)) |].
    rewrite handleRedo_cons.
    unfold in_every_snapshot; cbn [measurements history redoStack].
    split; [now inversion Hr | split; [| now inversion Hr]].
    apply Forall_app; split; [exact Hh | now constructor].
Qed.

Lemma pressed_snoc schedule t pageNumber :
  pressed schedule pageNumber -> pressed (schedule ++ [t]) pageNumber.
Proof. intros (e & He). exists e. apply in_or_app. now left. Qed.

Lemma play_on_a_pressed_page schedule :
  in_every_snapshot (on_a_pressed_page schedule) (rendered (play firstRender schedule)).
Proof.
  induction schedule as [| t schedule IH] using rev_ind;
    [split; [constructor | split; constructor] |].
  rewrite play_snoc.
  pose proof (view_invariant_play schedule) as (Hset & Hpage & _).
  pose proof (dragStart_lastPress schedule) as Hlast.
  set (v := play firstRender schedule) in *.
  assert (IH' : in_every_snapshot (on_a_pressed_page (schedule ++ [t])) (rendered v)).
  { apply (in_every_snapshot_impl (on_a_pressed_page schedule)); [| exact IH].
    intros m (Hsame & Hpressed). split; [exact Hsame | now apply pressed_snoc]. }
  destruct t as [ev |]; cbn [tick].
  - rewrite rendered_deliver. destruct (deferred ev); [exact IH' |].
    apply in_every_snapshot_commit; [| exact IH'].
    intros now p1 p2 _ Hd Hs He.
    destruct Hpage as (_ & Hend & _).
    destruct (Hend p2 He) as (p1' & Hs' & Hpg).
    assert (p1' = p1) by congruence. subst p1'.
    split; [unfold same_page; cbn; now symmetry |].
    cbn. apply pressed_snoc, lastPress_pressed, Hlast, Hs.
  - destruct Hset as (_ & _ & _ & Hm & Hh & Hr & _).
    destruct IH' as (Im & Ih & Ir).
    unfold in_every_snapshot, flush; cbn [rendered].
    rewrite Hm, Hh, Hr. exact (conj Im (conj Ih Ir)).
Qed.

(** ** The measurement a release appends *)

(** C3. A release handled by a render whose drag is active with a start
    and an end point appends exactly one measurement at the end of the
    store, in the render that follows and in every later one, and
    changes none of the earlier ones.  Its stored distance is the
    square root of the sum of the squared coordinate differences of the
    two points; from (0,0) to (3,4) that is 5.  The distance is a stored
    field: later changes of the zoom or of the calibration leave the
    store as it is.  The drag is the one of the render the handler
    belongs to: a release handled by a render that has no active drag,
    no start point or no end point (for one, while the move that sets
    the end point is queued and not rendered yet) appends nothing. *)
Theorem release_appends_one_measurement
    (v : View) (now : Z) (p1 p2 : Point.t)
    (Hdrag : isDragging (rendered v) = true)
    (Hstart : dragStart (rendered v) = Some p1)
    (Hend : dragEnd (rendered v) = Some p2) :
  let dx := (Point.x p2 - Point.x p1)%float in
  let dy := (Point.y p2 - Point.y p1)%float in
  let m := Measurement.mk now (p1, p2) (PrimFloat.sqrt (dx * dx + dy * dy)) in
  let v' := deliver v (MouseUp now) in
  measurements (rendered v') = measurements (rendered v) ++ [m] /\
  measurements (pending v') = measurements (rendered v) ++ [m] /\
  measurements (rendered (flush v')) = measurements (rendered v) ++ [m] /\
  List.length (measurements (rendered v')) = S (List.length (measurements (rendered v))) /\
  firstn (List.length (measurements (rendered v))) (measurements (rendered v')) =
    measurements (rendered v) /\
  euclidean (Point.mk 0 0 1) (Point.mk 3 4 1) = 5%float /\
  (forall zoom factor,
     measurements (rendered (deliver v' (SetScale zoom))) = measurements (rendered v') /\
     measurements (rendered (deliver v' (SetScaleFactor factor))) =
       measurements (rendered v')) /\
  (forall w : View,
     isDragging (rendered w) = false \/ dragStart (rendered w) = None \/
     dragEnd (rendered w) = None ->
     measurements (rendered (deliver w (MouseUp now))) = measurements (rendered w) /\
     measurements (pending (deliver w (MouseUp now))) = measurements (pending w)).
Proof.
  intros dx dy m v'; subst dx dy m v'.
  unfold deliver, flush; cbn [rendered pending deferred stepFrom].
  rewrite !(handleMouseUpFrom_commit (rendered v) now _ p1 p2 Hdrag Hstart Hend).
  cbn [measurements setScale setScaleFactor].
  split; [reflexivity |].
  split; [reflexivity |].
  split; [reflexivity |].
  split; [rewrite length_app; cbn [List.length]; lia |].
  split; [now rewrite firstn_app, Nat.sub_diag, firstn_all, app_nil_r |].
  split; [vm_compute; reflexivity |].
  split; [intros zoom factor; split; reflexivity |].
  intros w Habort.
  rewrite !(handleMouseUpFrom_abort (rendered w) now _ Habort).
  split; reflexivity.
Qed.

Lemma release_appends_one_measurement_witness :
  let v := play firstRender
             [Deliver (MouseDown (pointer 0 0) 1); Deliver (MouseMove (pointer 3.75 5)); Flush] in
  (isDragging (rendered v) = true /\
   dragStart (rendered v) = Some (Point.mk 0 0 1) /\
   dragEnd (rendered v) = Some (Point.mk 3 4 1)) /\
  measurements (rendered (deliver v (MouseUp 1000))) =
    [Measurement.mk 1000 (Point.mk 0 0 1, Point.mk 3 4 1) 5].
Proof.
  intros v.
  assert (Hd : isDragging (rendered v) = true) by (vm_compute; reflexivity).
  assert (Hs : dragStart (rendered v) = Some (Point.mk 0 0 1)) by (vm_compute; reflexivity).
  assert (He : dragEnd (rendered v) = Some (Point.mk 3 4 1)) by (vm_compute; reflexivity).
  destruct (release_appends_one_measurement v 1000 _ _ Hd Hs He) as (Hm & _).
  split; [exact (conj Hd (conj Hs He)) |].
  rewrite Hm. vm_compute. reflexivity.
Defined.

(** ** Measurements stay on the page of the press *)

(** C5. In every state the viewer reaches, whatever the order of
    events and renders, both points of every measurement of the store
    and of every snapshot are on one page, and a press was made on that
    page.  A press records the page it was made on; the start point on
    screen is always on the page of the most recent press; a move
    leaves the start point and the drag page as they are and records
    its end point with the page of the start point, whatever page the
    pointer is over; and the measurement a release commits has both
    points on the page of the most recent press. *)
Theorem measurements_lie_on_the_drag_page (schedule : list Tick) :
  let v := play firstRender schedule in
  in_every_snapshot (on_a_pressed_page schedule) (rendered v) /\
  timeline (pending v) = timeline (rendered v) /\
  (forall e pageNumber,
     let v' := deliver v (MouseDown e pageNumber) in
     dragStart (rendered v') = Some (normalize e (scale (rendered v)) pageNumber) /\
     dragPage (rendered v') = Some pageNumber /\
     lastPress (schedule ++ [Deliver (MouseDown e pageNumber)]) = Some pageNumber) /\
  (forall p,
     dragStart (rendered v) = Some p ->
     lastPress schedule = Some (Point.page p) /\
     dragPage (rendered v) = Some (Point.page p)) /\
  (forall e,
     let v' := deliver v (MouseMove e) in
     rendered v' = rendered v /\
     dragStart (pending v') = dragStart (pending v) /\
     dragPage (pending v') = dragPage (pending v) /\
     (forall p,
        isDragging (rendered v) = true -> dragStart (rendered v) = Some p ->
        dragEnd (pending v') =
          Some (Point.mk ((clientX e - rectLeft e) / scale (rendered v))%float
                         ((clientY e - rectTop e) / scale (rendered v))%float
                         (Point.page p))) /\
     (forall q, dragEnd (pending v') = Some q -> lastPress schedule = Some (Point.page q))) /\
  (forall q,
     dragEnd (rendered v) = Some q \/ dragEnd (pending v) = Some q ->
     lastPress schedule = Some (Point.page q)) /\
  (forall now p1 p2,
     isDragging (rendered v) = true ->
     dragStart (rendered v) = Some p1 ->
     dragEnd (rendered v) = Some p2 ->
     measurements (rendered (deliver v (MouseUp now))) =
       measurements (rendered v) ++ [Measurement.mk now (p1, p2) (euclidean p1 p2)] /\
     lastPress schedule = Some (Point.page p1) /\
     Point.page p2 = Point.page p1).
Proof.
  intros v.
  pose proof (view_invariant_play schedule) as (Hset & Hpage & _).
  pose proof (dragStart_lastPress schedule) as Hlast.
  fold v in Hset, Hpage, Hlast.
  assert (Hends : forall q,
            dragEnd (rendered v) = Some q \/ dragEnd (pending v) = Some q ->
            lastPress schedule = Some (Point.page q)).
  { destruct Hpage as (_ & Hend & Hqueued).
    intros q [Hq | Hq];
      [destruct (Hend q Hq) as (p & Hp & Hpg) | destruct (Hqueued q Hq) as (p & Hp & Hpg)];
      rewrite Hpg; now apply Hlast. }
  split; [apply play_on_a_pressed_page |].
  split.
  { destruct Hset as (_ & _ & _ & Hm & Hh & Hr & _).
    unfold timeline. now rewrite Hm, Hh, Hr. }
  split.
  { intros e pageNumber v'. subst v'.
    split; [reflexivity |]. split; [reflexivity |].
    now rewrite lastPress_snoc. }
  split.
  { intros p Hp. split; [now apply Hlast |].
    destruct Hpage as (Hstart & _). now apply Hstart. }
  split.
  { intros e v'. subst v'.
    split; [reflexivity |].
    assert (Hkept : forall b,
              dragStart (handleMouseMoveFrom (rendered v) e b) = dragStart b /\
              dragPage (handleMouseMoveFrom (rendered v) e b) = dragPage b).
    { intros b. unfold handleMouseMoveFrom.
      destruct (isDragging (rendered v)); [| now split].
      destruct (dragStart (rendered v)); [| now split].
      destruct (dragPage (rendered v)); now split. }
    unfold deliver; cbn [pending stepFrom].
    split; [apply Hkept |]. split; [apply Hkept |].
    split.
    - intros p Hd Hp.
      destruct Hpage as (Hstart & _).
      unfold handleMouseMoveFrom. rewrite Hd, Hp, (Hstart p Hp). reflexivity.
    - intros q Hq.
      pose proof (on_the_drag_page_deliver v (MouseMove e) Hpage) as (_ & _ & Hqueued).
      destruct (Hqueued q Hq) as (p & Hp & Hpg).
      rewrite Hpg. apply Hlast. exact Hp. }
  split; [exact Hends |].
  intros now p1 p2 Hd Hs He.
  split.
  { rewrite rendered_deliver; cbn [deferred step].
    now rewrite (handleMouseUp_commit now _ p1 p2 Hd Hs He). }
  split; [now apply Hlast |].
  destruct Hpage as (_ & Hend & _).
  destruct (Hend p2 He) as (p & Hp & Hpg). congruence.
Qed.

Lemma measurements_lie_on_the_drag_page_witness :
  let schedule :=
    [Deliver (MouseDown (pointer 0 0) 7); Deliver (MouseMove (pointer 3.75 5)); Flush] in
  let v := play firstRender schedule in
  lastPress schedule = Some 7%Z /\
  measurements (rendered (deliver v (MouseUp 1000))) =
    [Measurement.mk 1000 (Point.mk 0 0 7, Point.mk 3 4 7) 5].
Proof.
  intros schedule v.
  destruct (measurements_lie_on_the_drag_page schedule)
    as (_ & _ & _ & _ & _ & _ & Hcommit).
  fold v in Hcommit.
  assert (Hd : isDragging (rendered v) = true) by (vm_compute; reflexivity).
  assert (Hs : dragStart (rendered v) = Some (Point.mk 0 0 7)) by (vm_compute; reflexivity).
  assert (He : dragEnd (rendered v) = Some (Point.mk 3 4 7)) by (vm_compute; reflexivity).
  destruct (Hcommit 1000%Z _ _ Hd Hs He) as (Hm & Hpress & _).
  split; [exact Hpress |].
  rewrite Hm. vm_compute. reflexivity.
Defined.

(** ** Coordinate normalization and the zoom scale *)

(** A press, a move, a render and a release, from any view: the release
    reads the two points the press and the move recorded. *)
Lemma play_drag v e1 e2 pageNumber now :
  let p1 := normalize e1 (scale (rendered v)) pageNumber in
  let p2 := normalize e2 (scale (rendered v)) pageNumber in
  measurements
    (rendered (play v [Deliver (MouseDown e1 pageNumber); Deliver (MouseMove e2); Flush;
                       Deliver (MouseUp now)])) =
    measurements (pending v) ++ [Measurement.mk now (p1, p2) (euclidean p1 p2)].
Proof. destruct v as [r p]. reflexivity. Qed.

(** C7, as the code has it.  The zoom scale is never checked: whatever
    it is, positive or not, a press and a move record the offset from
    the page box divided by the scale, computed in binary64 arithmetic.
    With a zero scale both coordinates are infinite or NaN; negating
    the scale negates both coordinates.  Such points are stored and
    committed like any others, and with a zero scale the committed
    distance is infinite or NaN. *)
Theorem normalization_divides_by_every_scale
    (v : View) (e : MouseEvent) (pageNumber : Z) :
  let zoom := scale (rendered v) in
  let x := ((clientX e - rectLeft e) / zoom)%float in
  let y := ((clientY e - rectTop e) / zoom)%float in
  dragStart (rendered (deliver v (MouseDown e pageNumber))) = Some (Point.mk x y pageNumber) /\
  isDragging (rendered (deliver v (MouseDown e pageNumber))) = true /\
  (forall p pg,
     isDragging (rendered v) = true -> dragStart (rendered v) = Some p ->
     dragPage (rendered v) = Some pg ->
     dragEnd (pending (deliver v (MouseMove e))) = Some (Point.mk x y pg)) /\
  ((zoom =? 0)%float = true -> isFinite x = false /\ isFinite y = false) /\
  (forall z,
     normalize e (- z) pageNumber =
     Point.mk (- Point.x (normalize e z pageNumber))
              (- Point.y (normalize e z pageNumber)) pageNumber) /\
  (forall e2 now,
     let p1 := Point.mk x y pageNumber in
     let p2 := normalize e2 zoom pageNumber in
     measurements
       (rendered (play v [Deliver (MouseDown e pageNumber); Deliver (MouseMove e2); Flush;
                          Deliver (MouseUp now)])) =
       measurements (pending v) ++ [Measurement.mk now (p1, p2) (euclidean p1 p2)] /\
     ((zoom =? 0)%float = true -> isFinite (euclidean p1 p2) = false)).
Proof.
  intros zoom x y.
  split; [reflexivity |].
  split; [reflexivity |].
  split.
  { intros p pg Hd Hs Hp.
    unfold deliver; cbn [pending stepFrom]. unfold handleMouseMoveFrom.
    rewrite Hd, Hs, Hp. reflexivity. }
  split.
  { intros Hz. split; now apply float_div_zero. }
  split.
  { intros z. unfold normalize; cbn [Point.x Point.y].
    now rewrite !float_div_opp_r. }
  intros e2 now p1 p2.
  split; [apply (play_drag v e e2 pageNumber now) |].
  intros Hz. apply euclidean_not_finite. left.
  subst p1; cbn [Point.x]. now apply float_div_zero.
Qed.

Lemma normalization_divides_by_every_scale_witness :
  let v := play firstRender [Deliver (SetScale (-2)); Deliver (MouseDown (pointer 10 20) 1)] in
  dragEnd (pending (deliver v (MouseMove (pointer 30 60)))) = Some (Point.mk (-15) (-30) 1).
Proof.
  intros v.
  destruct (normalization_divides_by_every_scale v (pointer 30 60) 1)
    as (_ & _ & Hmove & _).
  rewrite (Hmove (Point.mk (-5) (-10) 1) 1%Z)
    by (vm_compute; reflexivity).
  vm_compute. reflexivity.
Defined.

(** C7, as the claim has it, fails: with a zoom scale of zero a press
    is not refused; it starts a drag and stores infinite coordinates,
    and the drag made at that scale is committed with a NaN distance. *)
Lemma zero_scale_is_computed_through :
  let s := step init (SetScale 0) in
  scale s = 0%float /\
  isDragging (step s (MouseDown (pointer 10 20) 1)) = true /\
  dragStart (step s (MouseDown (pointer 10 20) 1)) =
    Some (Point.mk infinity infinity 1) /\
  measurements
    (rendered (play (mkView s s)
                 [Deliver (MouseDown (pointer 10 20) 1); Deliver (MouseMove (pointer 30 60));
                  Flush; Deliver (MouseUp 1000)])) =
    [Measurement.mk 1000 (Point.mk infinity infinity 1, Point.mk infinity infinity 1) nan].
Proof.
  cbv zeta.
  split; [reflexivity |].
  split; [reflexivity |].
  split; vm_compute; reflexivity.
Qed.

(** ** A drag of length zero *)

(** A drag whose end point is its start point is committed, not
    discarded: when the point has finite coordinates, a press, a move
    at the same position, a render and a release append a measurement
    of distance [+0] between the point and itself.  When the release
    is handled before the move is rendered, it reads a drag without an
    end point: nothing is appended and the drag is closed. *)
Theorem zero_length_drag_is_committed
    (v : View) (e : MouseEvent) (pageNumber now : Z)
    (Hx : isFinite (Point.x (normalize e (scale (rendered v)) pageNumber)) = true)
    (Hy : isFinite (Point.y (normalize e (scale (rendered v)) pageNumber)) = true) :
  let p := normalize e (scale (rendered v)) pageNumber in
  let press := Deliver (MouseDown e pageNumber) in
  let move := Deliver (MouseMove e) in
  let release := Deliver (MouseUp now) in
  measurements (rendered (play v [press; move; Flush; release])) =
    measurements (pending v) ++ [Measurement.mk now (p, p) 0] /\
  measurements (pending (play v [press; move; Flush; release])) =
    measurements (pending v) ++ [Measurement.mk now (p, p) 0] /\
  measurements (rendered (play v [press; move; release])) = measurements (rendered v) /\
  measurements (pending (play v [press; move; release])) = measurements (pending v) /\
  isDragging (pending (play v [press; move; release])) = false.
Proof.
  intros p press move release; subst p press move release.
  set (p := normalize e (scale (rendered v)) pageNumber) in *.
  assert (Hzero : euclidean p p = 0%float).
  { unfold euclidean; cbv zeta.
    rewrite (float_sub_diag _ Hx), (float_sub_diag _ Hy). reflexivity. }
  rewrite <- Hzero. subst p. clear Hx Hy Hzero.
  destruct v as [r q].
  split; [reflexivity |].
  split; [reflexivity |].
  split; [reflexivity |].
  split; reflexivity.
Qed.

Lemma zero_length_drag_is_committed_witness :
  let press := Deliver (MouseDown (pointer 3.75 5) 1) in
  let move := Deliver (MouseMove (pointer 3.75 5)) in
  let release := Deliver (MouseUp 1000) in
  measurements (rendered (play firstRender [press; move; Flush; release])) =
    [Measurement.mk 1000 (Point.mk 3 4 1, Point.mk 3 4 1) 0] /\
  measurements (rendered (play firstRender [press; move; release])) = [].
Proof.
  intros press move release; subst press move release.
  destruct (zero_length_drag_is_committed firstRender (pointer 3.75 5) 1 1000)
    as (Hcommit & _ & Hearly & _);
    [vm_compute; reflexivity | vm_compute; reflexivity |].
  split; [rewrite Hcommit | rewrite Hearly]; vm_compute; reflexivity.
Defined.

(** ** Stored measurements are never modified *)

(** No event changes a stored sequence of measurements: every sequence
    the store or a stack holds after an event is one the store or a
    stack held before it, with two exceptions.  A release that reads an
    active drag with both points makes one new sequence, the store of
    before with the one measurement of the drag appended; a change of
    the document leaves the empty sequence. *)
Theorem stored_measurements_are_never_modified
    (s : State) (ev : Event) (snapshot : list Measurement.t) :
  In snapshot (timeline (step s ev)) ->
  In snapshot (timeline s) \/
  (exists now p1 p2,
     ev = MouseUp now /\
     isDragging s = true /\ dragStart s = Some p1 /\ dragEnd s = Some p2 /\
     snapshot = measurements s ++ [Measurement.mk now (p1, p2) (euclidean p1 p2)]) \/
  (exists nextFile, ev = FileChange nextFile /\ snapshot = []).
Proof.
  destruct ev as [nf | np | e pg | e | now | | | zoom | factor | hovered];
    cbn [step].
  - intros [<- | []]. right; right. now exists nf.
  - intros H. now left.
  - intros H. now left.
  - unfold handleMouseMove. abort_cases s; intros H; now left.
  - destruct (release_cases s) as [Habort | (p1 & p2 & Hd & Hs & He)].
    + intros H. left. revert H.
      change (handleMouseUp now s) with (step s (MouseUp now)).
      rewrite <- (stepFrom_same s (MouseUp now)); cbn [stepFrom].
      now rewrite (handleMouseUpFrom_abort s now s Habort).
    + rewrite (handleMouseUp_commit now s p1 p2 Hd Hs He).
      unfold timeline; cbn [history measurements redoStack].
      intros H. apply in_app_or in H as [H | [<- | []]].
      * apply in_app_or in H as [H | [<- | []]]; left; apply in_or_app.
        -- now left.
        -- right. now left.
      * right; left. now exists now, p1, p2.
  - rewrite timeline_handleUndo. intros H. now left.
  - rewrite timeline_handleRedo. intros H. now left.
  - intros H. now left.
  - intros H. now left.
  - intros H. now left.
Qed.

Lemma stored_measurements_are_never_modified_witness :
  let a := Measurement.mk 1000 (Point.mk 0 0 1, Point.mk 3 4 1) 5 in
  let b := Measurement.mk 1001 (Point.mk 3 4 1, Point.mk 0 0 1) 5 in
  let s := run init (drag 0 0 3.75 5 1 1000 ++
                     [MouseDown (pointer 3.75 5) 1; MouseMove (pointer 0 0)]) in
  In [a; b] (timeline (step s (MouseUp 1001))) /\
  (In [a; b] (timeline s) \/
   (exists now p1 p2,
      MouseUp 1001 = MouseUp now /\
      isDragging s = true /\ dragStart s = Some p1 /\ dragEnd s = Some p2 /\
      [a; b] = measurements s ++ [Measurement.mk now (p1, p2) (euclidean p1 p2)]) \/
   (exists nextFile, MouseUp 1001 = FileChange nextFile /\ [a; b] = [])).
Proof.
  intros a b s.
  assert (Hin : In [a; b] (timeline (step s (MouseUp 1001))))
    by (vm_compute; right; right; left; reflexivity).
  split; [exact Hin |].
  exact (stored_measurements_are_never_modified s (MouseUp 1001) [a; b] Hin).
Defined.
